(** * Structured-logging rewrite scripts of [server/src/agent-v2/scripts]

    A shallow embedding of the four Python scripts

    - [add_structured_logging.py]
    - [fix_logger_templates.py]
    - [fix_logger_variables.py]
    - [fix_logger_definitions_final.py]

    Documents are Python [str] values, modelled as [string]; the scripts
    work on them through [re.sub] and [re.finditer] only, so the first
    part of the development is the fragment of Python's backtracking
    regular expressions that the scripts' patterns are written in. *)

From Stdlib Require Import String Ascii List Arith Lia Bool.
From stdpp Require Import base gmap strings.

Local Open Scope string_scope.

(** ** Regular expressions, as [re] runs them *)

Module Re.

(** Character sets of the patterns: [.] under [re.DOTALL], a negated
    one-character class such as [[^`]], a positive class such as [[sS]],
    [\s] and [\w].  Texts are taken to be ASCII: on code points below 128
    Python's [\s] is tab, LF, VT, FF, CR, the separators 28-31 and the
    space, and [\w] is [[a-zA-Z0-9_]]. *)
Inductive cset : Type :=
| Any
| Except (c : ascii)
| OneOf (cs : list ascii)
| Space
| Word.

Definition is_space (c : ascii) : bool :=
  let n := nat_of_ascii c in
  (((9 <=? n) && (n <=? 13)) || ((28 <=? n) && (n <=? 32)))%nat.

Definition is_word (c : ascii) : bool :=
  let n := nat_of_ascii c in
  (((48 <=? n) && (n <=? 57)) || ((65 <=? n) && (n <=? 90))
   || ((97 <=? n) && (n <=? 122)) || (n =? 95))%nat.

Definition mem (cs : cset) (c : ascii) : bool :=
  match cs with
  | Any => true
  | Except d => negb (Ascii.eqb c d)
  | OneOf l => existsb (Ascii.eqb c) l
  | Space => is_space c
  | Word => is_word c
  end.

(** The pattern syntax used by the scripts.  [Chr cs] is one character of
    a set.  Every repetition in them is over a single character set:
    [Rep cs min true] is the greedy [cs*] ([min = 0]) or [cs+]
    ([min = 1]), [Rep cs 0 false] the lazy [cs*?].  Capturing groups
    carry the number Python gives them. *)
Inductive regex : Type :=
| Lit (s : string)
| Chr (cs : cset)
| Rep (cs : cset) (min : nat) (greedy : bool)
| Cat (r1 r2 : regex)
| Alt (r1 r2 : regex)
| Grp (n : nat) (r : regex).

(** A match object: the text of group 0 and of the numbered groups. *)
Definition groups := list (nat * string).

Fixpoint group (m : groups) (n : nat) : string :=
  match m with
  | [] => ""
  | (k, s) :: m' => if (k =? n)%nat then s else group m' n
  end.

Fixpoint take (n : nat) (s : string) : string :=
  match n, s with
  | S n', String c s' => String c (take n' s')
  | _, _ => ""
  end.

Fixpoint drop (n : nat) (s : string) : string :=
  match n, s with
  | S n', String c s' => drop n' s'
  | _, _ => s
  end.

(** [strip_prefix p s] is [Some r] when [s = p ++ r]. *)
Fixpoint strip_prefix (p s : string) : option string :=
  match p, s with
  | EmptyString, _ => Some s
  | String a p', String b s' =>
      if Ascii.eqb a b then strip_prefix p' s' else None
  | String _ _, EmptyString => None
  end.

(** The text consumed between the point where [s] was the remaining input
    and the later point where [rest] is. *)
Definition consumed (s rest : string) : string :=
  take (String.length s - String.length rest) s.

Section Matcher.

(** The matcher is written in continuation-passing style: the
    continuation [k] is the rest of the pattern, and a [None] from it
    makes the construct try its next alternative, which is [re]'s
    backtracking order. *)
Definition cont := string -> groups -> option (string * groups).

Fixpoint rep_greedy (cs : cset) (min : nat) (s : string) (g : groups)
    (k : cont) : option (string * groups) :=
  match s with
  | String c s' =>
      if mem cs c then
        match rep_greedy cs (Nat.pred min) s' g k with
        | Some r => Some r
        | None => if (min =? 0)%nat then k s g else None
        end
      else if (min =? 0)%nat then k s g else None
  | EmptyString => if (min =? 0)%nat then k s g else None
  end.

Fixpoint rep_lazy (cs : cset) (min : nat) (s : string) (g : groups)
    (k : cont) : option (string * groups) :=
  match (if (min =? 0)%nat then k s g else None) with
  | Some r => Some r
  | None =>
      match s with
      | String c s' =>
          if mem cs c then rep_lazy cs (Nat.pred min) s' g k else None
      | EmptyString => None
      end
  end.

Fixpoint run (r : regex) (s : string) (g : groups) (k : cont)
    : option (string * groups) :=
  match r with
  | Lit l =>
      match strip_prefix l s with
      | Some s' => k s' g
      | None => None
      end
  | Chr cs =>
      match s with
      | String c s' => if mem cs c then k s' g else None
      | EmptyString => None
      end
  | Rep cs min true => rep_greedy cs min s g k
  | Rep cs min false => rep_lazy cs min s g k
  | Cat r1 r2 => run r1 s g (fun s1 g1 => run r2 s1 g1 k)
  | Alt r1 r2 =>
      match run r1 s g k with
      | Some x => Some x
      | None => run r2 s g k
      end
  | Grp n r1 =>
      run r1 s g (fun s1 g1 => k s1 ((n, consumed s s1) :: g1))
  end.

End Matcher.

(** [match_at r s] is [pattern.match(s)]: a match anchored at the start of
    [s], as the match object and the number of characters matched. *)
Definition match_at (r : regex) (s : string) : option (groups * nat) :=
  match run r s [] (fun rest g => Some (rest, g)) with
  | Some (rest, g) =>
      Some ((0, consumed s rest) :: g, String.length s - String.length rest)
  | None => None
  end.

(** [subn r repl limit s skip] is [re.sub] scanning [s] from left to
    right: [skip] characters of the match just replaced are still to be
    passed over, [limit] is the [count] argument ([None] for no limit).
    It returns the new text and the number of substitutions made.  Every
    pattern of the scripts starts with a non-empty literal, so no match
    is empty and [re]'s rule for empty matches is never exercised; a
    zero-length match is treated as no match. *)
Fixpoint subn (r : regex) (repl : groups -> string) (limit : option nat)
    (s : string) (skip : nat) : string * nat :=
  match s with
  | EmptyString => ("", 0)
  | String c s' =>
      match skip with
      | S j => subn r repl limit s' j
      | O =>
          match limit with
          | Some O => (s, 0)
          | _ =>
              match match_at r s with
              | Some (m, S len) =>
                  let (t, n) := subn r repl (option_map Nat.pred limit) s' len in
                  (repl m +:+ t, S n)
              | _ =>
                  let (t, n) := subn r repl limit s' 0 in
                  (String c t, n)
              end
          end
      end
  end.

(** [re.sub(pattern, repl, s)] and [re.sub(pattern, repl, s, count=n)]. *)
Definition sub (r : regex) (repl : groups -> string) (s : string) : string :=
  fst (subn r repl None s 0).

Definition sub_count (r : regex) (repl : groups -> string) (n : nat) (s : string)
    : string :=
  fst (subn r repl (Some n) s 0).

(** [list(re.finditer(pattern, s))]: the match objects of the
    non-overlapping matches, left to right. *)
Fixpoint finditer_from (r : regex) (s : string) (skip : nat) : list groups :=
  match s with
  | EmptyString => []
  | String c s' =>
      match skip with
      | S j => finditer_from r s' j
      | O =>
          match match_at r s with
          | Some (m, S len) => m :: finditer_from r s' len
          | _ => finditer_from r s' 0
          end
      end
  end.

Definition finditer (r : regex) (s : string) : list groups :=
  finditer_from r s 0.

(** [needle in s] on strings. *)
Fixpoint contains (needle s : string) : bool :=
  match strip_prefix needle s with
  | Some _ => true
  | None =>
      match s with
      | String _ s' => contains needle s'
      | EmptyString => false
      end
  end.

(** [s.rstrip(':')]-style and [s.strip()] helpers. *)
Fixpoint rstrip_by (p : ascii -> bool) (s : string) : string :=
  match s with
  | EmptyString => ""
  | String c s' =>
      match rstrip_by p s' with
      | EmptyString => if p c then "" else String c ""
      | t => String c t
      end
  end.

Fixpoint lstrip_by (p : ascii -> bool) (s : string) : string :=
  match s with
  | String c s' => if p c then lstrip_by p s' else s
  | EmptyString => ""
  end.

Definition strip (s : string) : string :=
  rstrip_by is_space (lstrip_by is_space s).

(** *** Auxiliary functions for reasoning about matches *)

(** The text of [re.sub]'s result alone. *)
Fixpoint sub_text (r : regex) (repl : groups -> string) (s : string)
    (skip : nat) : string :=
  match s with
  | EmptyString => ""
  | String c s' =>
      match skip with
      | S j => sub_text r repl s' j
      | O =>
          match match_at r s with
          | Some (m, S len) => repl m +:+ sub_text r repl s' len
          | _ => String c (sub_text r repl s' 0)
          end
      end
  end.

(** [span_not c s] cuts [s] before the first occurrence of [c]. *)
Fixpoint span_not (c : ascii) (s : string) : string * string :=
  match s with
  | EmptyString => ("", "")
  | String d s' =>
      if Ascii.eqb d c then ("", s)
      else let (b, r) := span_not c s' in (String d b, r)
  end.

(** The literal text every match of a pattern starts with. *)
Fixpoint literal_prefix (r : regex) : string :=
  match r with
  | Lit l => l
  | Cat (Lit l) r2 => l +:+ literal_prefix r2
  | Cat r1 _ => literal_prefix r1
  | Grp _ r1 => literal_prefix r1
  | _ => ""
  end.

Module Notations.
Declare Scope re_scope.
Delimit Scope re_scope with re.
Bind Scope re_scope with regex.
Infix "·" := Cat (at level 41, right associativity) : re_scope.
Notation "r1 ∣ r2" := (Alt r1 r2) (at level 42, right associativity) : re_scope.
End Notations.

End Re.

Import Re.Notations.
Local Open Scope re_scope.

Definition nl : string := String "010" "".

(** ** The scripts' view of the outside world *)

(** One constructor per [print] call of the four scripts (the leading
    pictographs and the fixed banner texts carry no information and are
    left out). *)
Inductive line : Type :=
| Banner                                    (* headings, rules, next steps *)
| LoggerExists                              (* Logger already exists, skipping addition *)
| NoInsertionPoint                          (* WARNING: Could not find insertion point for logger *)
| AddedLogger                               (* Added logger utility *)
| Replaced (call : string) (count : nat)    (* Replaced {count} console.log calls *)
| FileNotFound (agent : string)             (* {agent_name}: File not found *)
| Processing (agent : string)               (* Processing {agent_name}... *)
| Complete (agent : string)                 (* {agent_name} complete *)
| Summary (success_count total : nat)       (* Complete! Processed {success_count}/{len(AGENTS)} agents *)
| FixedTemplates (agent : string) (count : nat)   (* {agent_name}: Fixed {count} template literals *)
| NoTemplates (agent : string)              (* {agent_name}: No templates to fix *)
| FoundMatches (count : nat) (rule : nat)   (* Found {len(matches)} matches for pattern: ... *)
| FixedVariables (agent : string) (count : nat)   (* {agent_name}: Fixed {count} variable references *)
| NoVariables (agent : string)              (* {agent_name}: No variable references to fix *)
| FixedDefinition (agent : string).         (* Fixed {agent} logger definition *)

(** The file system as a map from paths to file texts, the lines printed
    so far (oldest first) and the [write_text] calls made so far (oldest
    first, path and text written). *)
Record world : Type := World {
  files : gmap string string;
  console : list line;
  written : list (string * string)
}.

(** Python exceptions the scripts can meet in this model. *)
Inductive exn : Type :=
| KeyError (key : string).

Inductive result (A : Type) : Type :=
| Ok (a : A)
| Raise (e : exn).
Arguments Ok {A} a.
Arguments Raise {A} e.

Definition io (A : Type) : Type := world -> result A * world.

#[global] Instance io_ret : MRet io := fun A (a : A) w => (Ok a, w).

#[global] Instance io_bind : MBind io := fun A B (f : A -> io B) (c : io A) w =>
  match c w with
  | (Ok a, w') => f a w'
  | (Raise e, w') => (Raise e, w')
  end.

Definition raise {A} (e : exn) : io A := fun w => (Raise e, w).

Definition print (l : line) : io unit :=
  fun w => (Ok tt, World (files w) (console w ++ [l]) (written w)).

Definition print_all (ls : list line) : io unit :=
  fun w => (Ok tt, World (files w) (console w ++ ls) (written w)).

(** [file_path.exists()] followed by [file_path.read_text()]: [None] when
    the path does not exist. *)
Definition read_text (path : string) : io (option string) :=
  fun w => (Ok (files w !! path), w).

Definition write_text (path text : string) : io unit :=
  fun w => (Ok tt, World (<[path := text]> (files w)) (console w)
                         (written w ++ [(path, text)])).

(** A function that prints while it computes returns its value with the
    lines it printed; [say] runs it inside [io]. *)
Definition say {A} (v : A * list line) : io A :=
  print_all (snd v) ;; mret (fst v).

(** [Path(f"server/src/agent-v2/deploy/{agent_name}/src/agent.ts")] *)
Definition agent_path (agent_name : string) : string :=
  "server/src/agent-v2/deploy/" +:+ agent_name +:+ "/src/agent.ts".

(** [AGENTS], the same list in all four scripts. *)
Definition AGENTS : list string :=
  ["concierge"; "storefront"; "marketing"; "research"; "booking"].

(** ** add_structured_logging.py *)

Module AddStructuredLogging.

Definition LOGGER_CODE : string :=
"
// =============================================================================
// STRUCTURED LOGGER
// =============================================================================

/**
 * Lightweight structured logger for Cloud Run agents
 * Outputs JSON for easy parsing in Cloud Logging
 */
const logger = {
  info: (data: Record<string, unknown>, msg: string) =>
    console.log(JSON.stringify({ level: 'info', msg, ...data, timestamp: new Date().toISOString() })),
  warn: (data: Record<string, unknown>, msg: string) =>
    console.warn(JSON.stringify({ level: 'warn', msg, ...data, timestamp: new Date().toISOString() })),
  error: (data: Record<string, unknown>, msg: string) =>
    console.error(JSON.stringify({ level: 'error', msg, ...data, timestamp: new Date().toISOString() })),
};
".

(** [(import.*?;\s*\n)(\n// ===...===\n// ENVIRONMENT CONFIGURATION)]
    with [re.DOTALL]. *)
Definition insertion_point : Re.regex :=
  Re.Grp 1 (Re.Lit "import" · Re.Rep Re.Any 0 false · Re.Lit ";"
            · Re.Rep Re.Space 0 true · Re.Lit nl)
  · Re.Grp 2 (Re.Lit nl
            · Re.Lit "// ============================================================================="
            · Re.Lit nl · Re.Lit "// ENVIRONMENT CONFIGURATION").

(** [add_logger] returns the text, here with the line it printed.  The
    replacement template [r'\1' + LOGGER_CODE + r'\2'] has no other
    escape, [LOGGER_CODE] holding no backslash. *)
Definition add_logger (content : string) : string * list line :=
  let pattern := insertion_point in
  let replacement (m : Re.groups) :=
    Re.group m 1 +:+ LOGGER_CODE +:+ Re.group m 2 in
  if Re.contains "// STRUCTURED LOGGER" content then
    (content, [LoggerExists])
  else
    let result := Re.sub_count pattern replacement 1 content in
    if String.eqb result content then
      (content, [NoInsertionPoint])
    else
      (result, [AddedLogger]).

(** The legacy-call patterns.  [agent_prefix] is spliced into the pattern
    source unescaped; the prefixes that [main] passes are made of letters
    only, and for those the spliced text is the literal [Lit agent_prefix].

    [console\.<call>\(`\[PREFIX\] ([^`]+)`\);] *)
Definition message_only (call agent_prefix : string) : Re.regex :=
  Re.Lit ("console." +:+ call +:+ "(`[") · Re.Lit agent_prefix · Re.Lit "] "
  · Re.Grp 1 (Re.Rep (Re.Except "`") 1 true) · Re.Lit "`);".

(** [console\.log\(`\[PREFIX\] ([^`]+)`,\s*([^)]+)\);] *)
Definition message_data (agent_prefix : string) : Re.regex :=
  Re.Lit "console.log(`[" · Re.Lit agent_prefix · Re.Lit "] "
  · Re.Grp 1 (Re.Rep (Re.Except "`") 1 true) · Re.Lit "`,"
  · Re.Rep Re.Space 0 true · Re.Grp 2 (Re.Rep (Re.Except ")") 1 true)
  · Re.Lit ");".

(** [console\.error\(`\[PREFIX\] ([^`]+)`,\s*error\);] *)
Definition message_error (agent_prefix : string) : Re.regex :=
  Re.Lit "console.error(`[" · Re.Lit agent_prefix · Re.Lit "] "
  · Re.Grp 1 (Re.Rep (Re.Except "`") 1 true) · Re.Lit "`,"
  · Re.Rep Re.Space 0 true · Re.Lit "error);".

(** Each [replace_console_*] returns the new text with the value its
    [count] has reached (the replacement functions add one per call) and
    the line it prints. *)
Definition replace_console_log_count (content agent_prefix : string)
    : string * nat :=
  let pattern1 := message_only "log" agent_prefix in
  let repl1 (m : Re.groups) :=
    let msg := Re.group m 1 in
    "logger.info({}, '[" +:+ agent_prefix +:+ "] " +:+ msg +:+ "');" in
  let (content, count1) := Re.subn pattern1 repl1 None content 0 in
  let pattern2 := message_data agent_prefix in
  let repl2 (m : Re.groups) :=
    let msg := Re.group m 1 in
    let data_expr := Re.strip (Re.group m 2) in
    if Re.contains "JSON.stringify" data_expr then
      "logger.info({ data: " +:+ data_expr +:+ " }, '[" +:+ agent_prefix
        +:+ "] " +:+ msg +:+ "');"
    else
      "logger.info({ " +:+ data_expr +:+ " }, '[" +:+ agent_prefix
        +:+ "] " +:+ msg +:+ "');" in
  let (content, count2) := Re.subn pattern2 repl2 None content 0 in
  (content, count1 + count2).

Definition replace_console_log (content agent_prefix : string)
    : string * list line :=
  let (content, count) := replace_console_log_count content agent_prefix in
  (content, [Replaced "console.log" count]).

Definition replace_console_error_count (content agent_prefix : string)
    : string * nat :=
  let pattern1 := message_only "error" agent_prefix in
  let repl1 (m : Re.groups) :=
    let msg := Re.group m 1 in
    "logger.error({}, '[" +:+ agent_prefix +:+ "] " +:+ msg +:+ "');" in
  let (content, count1) := Re.subn pattern1 repl1 None content 0 in
  let pattern2 := message_error agent_prefix in
  let repl2 (m : Re.groups) :=
    let msg := Re.rstrip_by (Ascii.eqb ":") (Re.group m 1) in
    "logger.error({ error: error instanceof Error ? error.message : String(error) }, '["
      +:+ agent_prefix +:+ "] " +:+ msg +:+ "');" in
  let (content, count2) := Re.subn pattern2 repl2 None content 0 in
  (content, count1 + count2).

Definition replace_console_error (content agent_prefix : string)
    : string * list line :=
  let (content, count) := replace_console_error_count content agent_prefix in
  (content, [Replaced "console.error" count]).

Definition replace_console_warn_count (content agent_prefix : string)
    : string * nat :=
  let pattern := message_only "warn" agent_prefix in
  let repl (m : Re.groups) :=
    let msg := Re.group m 1 in
    "logger.warn({}, '[" +:+ agent_prefix +:+ "] " +:+ msg +:+ "');" in
  Re.subn pattern repl None content 0.

Definition replace_console_warn (content agent_prefix : string)
    : string * list line :=
  let (content, count) := replace_console_warn_count content agent_prefix in
  (content, if (0 <? count)%nat then [Replaced "console.warn" count] else []).

(** The text [process_agent_file] holds when it writes back. *)
Definition rewritten (content agent_prefix : string) : string :=
  let content := fst (add_logger content) in
  let content := fst (replace_console_log content agent_prefix) in
  let content := fst (replace_console_error content agent_prefix) in
  fst (replace_console_warn content agent_prefix).

Definition process_agent_file (agent_name agent_prefix : string) : io bool :=
  let file_path := agent_path agent_name in
  found ← read_text file_path;
  match found with
  | None =>
      print (FileNotFound agent_name) ;;
      mret false
  | Some content =>
      print (Processing agent_name) ;;
      content ← say (add_logger content);
      content ← say (replace_console_log content agent_prefix);
      content ← say (replace_console_error content agent_prefix);
      content ← say (replace_console_warn content agent_prefix);
      write_text file_path content ;;
      print (Complete agent_name) ;;
      mret true
  end.

Definition agent_prefixes : list (string * string) :=
  [("concierge", "Concierge");
   ("storefront", "StorefrontAgent");
   ("marketing", "MarketingAgent");
   ("research", "ResearchAgent");
   ("booking", "BookingAgent")].

(** [agent_prefixes[agent]] *)
Fixpoint getitem (d : list (string * string)) (key : string) : io string :=
  match d with
  | [] => raise (KeyError key)
  | (k, v) :: d' => if String.eqb k key then mret v else getitem d' key
  end.

(** The [for agent in AGENTS] loop of [main], carrying [success_count]. *)
Fixpoint main_loop (agents : list string) (success_count : nat) : io nat :=
  match agents with
  | [] => mret success_count
  | agent :: rest =>
      agent_prefix ← getitem agent_prefixes agent;
      ok ← process_agent_file agent agent_prefix;
      main_loop rest (if ok : bool then S success_count else success_count)
  end.

Definition main : io unit :=
  print Banner ;;
  print Banner ;;
  success_count ← main_loop AGENTS 0;
  print Banner ;;
  print (Summary success_count (List.length AGENTS)) ;;
  print Banner ;;
  print Banner ;;
  print Banner ;;
  print Banner.

End AddStructuredLogging.

(** ** fix_logger_templates.py *)

Module FixLoggerTemplates.

(** The pattern, with spaces added between its parts:
    [( logger\. (info|warn|error) \( [^,]+ , \s* ) ' ( [^']* \$\{ [^']* ) ' ( \); )] *)
Definition pattern : Re.regex :=
  Re.Grp 1 (Re.Lit "logger."
            · Re.Grp 2 (Re.Lit "info" ∣ Re.Lit "warn" ∣ Re.Lit "error")
            · Re.Lit "(" · Re.Rep (Re.Except ",") 1 true · Re.Lit ","
            · Re.Rep Re.Space 0 true)
  · Re.Lit "'"
  · Re.Grp 3 (Re.Rep (Re.Except "'") 0 true · Re.Lit "${"
              · Re.Rep (Re.Except "'") 0 true)
  · Re.Lit "'"
  · Re.Grp 4 (Re.Lit ");").

Definition replacer (m : Re.groups) : string :=
  let prefix := Re.group m 1 in
  let msg := Re.group m 3 in
  let suffix := Re.group m 4 in
  prefix +:+ "`" +:+ msg +:+ "`" +:+ suffix.

(** The values of the locals [content] and [count] when
    [fix_logger_templates] reaches its [return]. *)
Definition locals (content : string) : string * nat :=
  Re.subn pattern replacer None content 0.

(** [fix_logger_templates] returns [count]; the rewritten text is bound to
    its own local [content] only. *)
Definition fix_logger_templates (content : string) : nat :=
  let (content, count) := locals content in
  count.

Definition process_agent_file (agent_name : string) : io bool :=
  let file_path := agent_path agent_name in
  found ← read_text file_path;
  match found with
  | None =>
      print (FileNotFound agent_name) ;;
      mret false
  | Some content =>
      let count := fix_logger_templates content in
      (if (0 <? count)%nat then
         write_text file_path content ;;
         print (FixedTemplates agent_name count)
       else
         print (NoTemplates agent_name)) ;;
      mret true
  end.

Fixpoint main_loop (agents : list string) : io unit :=
  match agents with
  | [] => mret tt
  | agent :: rest => process_agent_file agent ;; main_loop rest
  end.

Definition main : io unit :=
  print Banner ;;
  print Banner ;;
  main_loop AGENTS ;;
  print Banner ;;
  print Banner.

End FixLoggerTemplates.

(** ** fix_logger_variables.py *)

Module FixLoggerVariables.

(** Fragments shared by the patterns of [VARIABLE_PATTERNS], with spaces
    added between their parts: [( logger\. (info|warn|error) \(\{\}, \s* )],
    [( logger\.info \(\{\}, \s* )], ['], [( [^']* )], [\$\{expr\}],
    [( \w* [sS]essionId )] and [( \); )]. *)
Definition head_any : Re.regex :=
  Re.Grp 1 (Re.Lit "logger."
            · Re.Grp 2 (Re.Lit "info" ∣ Re.Lit "warn" ∣ Re.Lit "error")
            · Re.Lit "({}," · Re.Rep Re.Space 0 true).

Definition head_of (severity : string) : Re.regex :=
  Re.Grp 1 (Re.Lit ("logger." +:+ severity +:+ "({},") · Re.Rep Re.Space 0 true).

Definition quote : Re.regex := Re.Lit "'".

Definition text (n : nat) : Re.regex := Re.Grp n (Re.Rep (Re.Except "'") 0 true).

Definition ref (expr : string) : Re.regex := Re.Lit ("${" +:+ expr +:+ "}").

Definition session_name (n : nat) : Re.regex :=
  Re.Grp n (Re.Rep Re.Word 0 true · Re.Chr (Re.OneOf ["s"; "S"]%char)
            · Re.Lit "essionId").

Definition close (n : nat) : Re.regex := Re.Grp n (Re.Lit ");").

Definition VARIABLE_PATTERNS : list (Re.regex * (Re.groups -> string)) := [
  (* tenantId *)
  (head_any · quote · text 3 · ref "tenantId" · text 4 · quote · close 5,
   fun m => Re.group m 1 +:+ "{ tenantId }, '" +:+ Re.group m 3 +:+ " [tenantId]" +:+ Re.group m 4 +:+ "'" +:+ Re.group m 5);
  (* agentName *)
  (head_any · quote · text 3 · ref "agentName" · text 4 · quote · close 5,
   fun m => Re.group m 1 +:+ "{ agentName }, '" +:+ Re.group m 3 +:+ " [agentName]" +:+ Re.group m 4 +:+ "'" +:+ Re.group m 5);
  (* sessionId / specialistSessionId / cachedSessionId *)
  (head_any · quote · text 3 · Re.Lit "${" · session_name 4 · Re.Lit "}" · text 5 · quote · close 6,
   fun m => Re.group m 1 +:+ "{ sessionId: " +:+ Re.group m 4 +:+ " }, '" +:+ Re.group m 3 +:+ " [sessionId]" +:+ Re.group m 5 +:+ "'" +:+ Re.group m 6);
  (* response.status *)
  ((head_of "error") · quote · text 2 · ref "response.status" · text 3 · quote · close 4,
   fun m => Re.group m 1 +:+ "{ status: response.status }, '" +:+ Re.group m 2 +:+ " [status]" +:+ Re.group m 3 +:+ "'" +:+ Re.group m 4);
  (* errorText *)
  ((head_of "error") · quote · text 2 · ref "errorText" · text 3 · quote · close 4,
   fun m => Re.group m 1 +:+ "{ errorText }, '" +:+ Re.group m 2 +:+ " [errorText]" +:+ Re.group m 3 +:+ "'" +:+ Re.group m 4);
  (* Two variables in one message - agentName and sessionId *)
  (head_any · quote · text 3 · ref "agentName" · text 4 · Re.Lit "${" · session_name 5 · Re.Lit "}" · text 6 · quote · close 7,
   fun m => Re.group m 1 +:+ "{ agentName, sessionId: " +:+ Re.group m 5 +:+ " }, '" +:+ Re.group m 3 +:+ " [agentName]" +:+ Re.group m 4 +:+ " [sessionId]" +:+ Re.group m 6 +:+ "'" +:+ Re.group m 7);
  (* params.task *)
  ((head_of "info") · quote · text 2 · ref "params.task" · text 3 · quote · close 4,
   fun m => Re.group m 1 +:+ "{ task: params.task }, '" +:+ Re.group m 2 +:+ " [task]" +:+ Re.group m 3 +:+ "'" +:+ Re.group m 4);
  (* params.pageName *)
  ((head_of "info") · quote · text 2 · ref "params.pageName" · text 3 · quote · close 4,
   fun m => Re.group m 1 +:+ "{ pageName: params.pageName }, '" +:+ Re.group m 2 +:+ " [pageName]" +:+ Re.group m 3 +:+ "'" +:+ Re.group m 4);
  (* params.enabled *)
  ((head_of "info") · quote · text 2 · ref "params.enabled" · text 3 · quote · close 4,
   fun m => Re.group m 1 +:+ "{ enabled: params.enabled }, '" +:+ Re.group m 2 +:+ " [enabled]" +:+ Re.group m 3 +:+ "'" +:+ Re.group m 4);
  (* params.toPosition *)
  ((head_of "info") · quote · text 2 · ref "params.toPosition" · text 3 · quote · close 4,
   fun m => Re.group m 1 +:+ "{ toPosition: params.toPosition }, '" +:+ Re.group m 2 +:+ " [toPosition]" +:+ Re.group m 3 +:+ "'" +:+ Re.group m 4);
  (* params.sectionType and params.pageName together *)
  ((head_of "info") · quote · text 2 · ref "params.sectionType" · text 3 · ref "params.pageName" · text 4 · quote · close 5,
   fun m => Re.group m 1 +:+ "{ sectionType: params.sectionType, pageName: params.pageName }, '" +:+ Re.group m 2 +:+ " [sectionType]" +:+ Re.group m 3 +:+ " [pageName]" +:+ Re.group m 4 +:+ "'" +:+ Re.group m 5);
  (* params.sectionId *)
  ((head_of "info") · quote · text 2 · ref "params.sectionId" · text 3 · quote · close 4,
   fun m => Re.group m 1 +:+ "{ sectionId: params.sectionId }, '" +:+ Re.group m 2 +:+ " [sectionId]" +:+ Re.group m 3 +:+ "'" +:+ Re.group m 4);
  (* params.context *)
  ((head_of "info") · quote · text 2 · ref "params.context" · text 3 · quote · close 4,
   fun m => Re.group m 1 +:+ "{ context: params.context }, '" +:+ Re.group m 2 +:+ " [context]" +:+ Re.group m 3 +:+ "'" +:+ Re.group m 4);
  (* params.serviceName *)
  ((head_of "info") · quote · text 2 · ref "params.serviceName" · text 3 · quote · close 4,
   fun m => Re.group m 1 +:+ "{ serviceName: params.serviceName }, '" +:+ Re.group m 2 +:+ " [serviceName]" +:+ Re.group m 3 +:+ "'" +:+ Re.group m 4);
  (* params.copyType *)
  ((head_of "info") · quote · text 2 · ref "params.copyType" · text 3 · quote · close 4,
   fun m => Re.group m 1 +:+ "{ copyType: params.copyType }, '" +:+ Re.group m 2 +:+ " [copyType]" +:+ Re.group m 3 +:+ "'" +:+ Re.group m 4);
  (* params.industry and params.location *)
  ((head_of "info") · quote · text 2 · ref "params.industry" · text 3 · ref "params.location" · text 4 · quote · close 5,
   fun m => Re.group m 1 +:+ "{ industry: params.industry, location: params.location }, '" +:+ Re.group m 2 +:+ " [industry]" +:+ Re.group m 3 +:+ " [location]" +:+ Re.group m 4 +:+ "'" +:+ Re.group m 5);
  (* params.url *)
  ((head_of "info") · quote · text 2 · ref "params.url" · text 3 · quote · close 4,
   fun m => Re.group m 1 +:+ "{ url: params.url }, '" +:+ Re.group m 2 +:+ " [url]" +:+ Re.group m 3 +:+ "'" +:+ Re.group m 4);
  (* params.competitors.length *)
  ((head_of "info") · quote · text 2 · ref "params.competitors.length" · text 3 · quote · close 4,
   fun m => Re.group m 1 +:+ "{ competitorCount: params.competitors.length }, '" +:+ Re.group m 2 +:+ " [competitorCount]" +:+ Re.group m 3 +:+ "'" +:+ Re.group m 4);
  (* params.serviceId *)
  ((head_of "info") · quote · text 2 · ref "params.serviceId" · text 3 · quote · close 4,
   fun m => Re.group m 1 +:+ "{ serviceId: params.serviceId }, '" +:+ Re.group m 2 +:+ " [serviceId]" +:+ Re.group m 3 +:+ "'" +:+ Re.group m 4);
  (* params.startDate and params.endDate *)
  ((head_of "info") · quote · text 2 · ref "params.startDate" · text 3 · ref "params.endDate" · text 4 · quote · close 5,
   fun m => Re.group m 1 +:+ "{ startDate: params.startDate, endDate: params.endDate }, '" +:+ Re.group m 2 +:+ " [startDate]" +:+ Re.group m 3 +:+ " [endDate]" +:+ Re.group m 4 +:+ "'" +:+ Re.group m 5);
  (* params.question substring *)
  ((head_of "info") · quote · text 2 · Re.Lit "${params.question.substring(0," · Re.Rep Re.Space 0 true · Re.Lit "50)}" · text 3 · quote · close 4,
   fun m => Re.group m 1 +:+ "{ question: params.question.substring(0, 50) }, '" +:+ Re.group m 2 +:+ " [question]" +:+ Re.group m 3 +:+ "'" +:+ Re.group m 4);
  (* params.scheduledAt *)
  ((head_of "info") · quote · text 2 · ref "params.scheduledAt" · text 3 · quote · close 4,
   fun m => Re.group m 1 +:+ "{ scheduledAt: params.scheduledAt }, '" +:+ Re.group m 2 +:+ " [scheduledAt]" +:+ Re.group m 3 +:+ "'" +:+ Re.group m 4)
].

(** The [for pattern, replacer in VARIABLE_PATTERNS] loop, carrying the
    locals [content] and [count]; [i] numbers the rule in the printed
    line, which in the source shows the first 50 characters of the
    pattern. *)
Fixpoint loop (rules : list (Re.regex * (Re.groups -> string))) (i : nat)
    (content : string) (count : nat) : (string * nat) * list line :=
  match rules with
  | [] => ((content, count), [])
  | (pattern, replacer) :: rest =>
      let matches := Re.finditer pattern content in
      match matches with
      | _ :: _ =>
          let count := count + List.length matches in
          let content := Re.sub pattern replacer content in
          let (r, ls) := loop rest (S i) content count in
          (r, FoundMatches (List.length matches) i :: ls)
      | [] => loop rest (S i) content count
      end
  end.

(** The values of the locals [content] and [count] at the [return]. *)
Definition locals (content : string) : string * nat :=
  fst (loop VARIABLE_PATTERNS 0 content 0).

(** [fix_logger_variables] returns [count] (here with the lines it
    printed); the rewritten text is bound to its own local [content]
    only. *)
Definition fix_logger_variables (content : string) : nat * list line :=
  let (r, ls) := loop VARIABLE_PATTERNS 0 content 0 in
  (snd r, ls).

Definition process_agent_file (agent_name : string) : io bool :=
  let file_path := agent_path agent_name in
  found ← read_text file_path;
  match found with
  | None =>
      print (FileNotFound agent_name) ;;
      mret false
  | Some content =>
      print (Processing agent_name) ;;
      count ← say (fix_logger_variables content);
      write_text file_path content ;;
      (if (0 <? count)%nat then
         print (FixedVariables agent_name count)
       else
         print (NoVariables agent_name)) ;;
      mret true
  end.

Fixpoint main_loop (agents : list string) : io unit :=
  match agents with
  | [] => mret tt
  | agent :: rest => process_agent_file agent ;; main_loop rest
  end.

Definition main : io unit :=
  print Banner ;;
  print Banner ;;
  main_loop AGENTS ;;
  print Banner ;;
  print Banner ;;
  print Banner.

End FixLoggerVariables.

(** ** fix_logger_definitions_final.py *)

Module FixLoggerDefinitionsFinal.

Definition CORRECT_LOGGER : string :=
"const logger = {
  info: (data: Record<string, unknown>, msg: string) =>
    console.log(JSON.stringify({ level: 'info', msg, ...data, timestamp: new Date().toISOString() })),
  warn: (data: Record<string, unknown>, msg: string) =>
    console.warn(JSON.stringify({ level: 'warn', msg, ...data, timestamp: new Date().toISOString() })),
  error: (data: Record<string, unknown>, msg: string) =>
    console.error(JSON.stringify({ level: 'error', msg, ...data, timestamp: new Date().toISOString() })),
};".

(** [const logger = \{[^}]+\};]; the replacement [CORRECT_LOGGER] holds
    no backslash, so [re.sub] inserts it as it is. *)
Definition pattern : Re.regex :=
  Re.Lit "const logger = {" · Re.Rep (Re.Except "}") 1 true · Re.Lit "};".

Definition fix_logger_definition (content : string) : string :=
  let content := Re.sub pattern (fun _ => CORRECT_LOGGER) content in
  content.

(** The text of [re.sub(pattern, CORRECT_LOGGER, s)] from a point where
    [skip] characters of the match just replaced are still to be passed
    over. *)
Definition fix_from (s : string) (skip : nat) : string :=
  Re.sub_text pattern (fun _ => CORRECT_LOGGER) s skip.

(** Whether [s] starts with a declaration that the pattern matches: the
    opening text, a body of one or more characters other than [}], and
    the closing [};]. *)
Definition declaration_at (s : string) : bool :=
  match Re.strip_prefix "const logger = {" s with
  | Some s1 =>
      let (body, r) := Re.span_not "}" s1 in
      (1 <=? String.length body)%nat
      && match Re.strip_prefix "};" r with Some _ => true | None => false end
  | None => false
  end.

Fixpoint main_loop (agents : list string) : io unit :=
  match agents with
  | [] => mret tt
  | agent :: rest =>
      let file_path := agent_path agent in
      found ← read_text file_path;
      match found with
      | None => main_loop rest
      | Some content =>
          let new_content := fix_logger_definition content in
          write_text file_path new_content ;;
          print (FixedDefinition agent) ;;
          main_loop rest
      end
  end.

Definition main : io unit := main_loop AGENTS.

End FixLoggerDefinitionsFinal.

(** ** The passes run one after the other *)


(** The world with one agent file and nothing printed or written yet. *)
Definition one_file (agent_name text : string) : world :=
  World {[ agent_path agent_name := text ]} [] [].

(** The text of an agent's file. *)
Definition file_text (agent_name : string) (w : world) : option string :=
  files w !! agent_path agent_name.

(** The opening text of a legacy call with a prefix-tagged message. *)
Definition legacy_opener (call agent_prefix : string) : string :=
  "console." +:+ call +:+ "(`[" +:+ agent_prefix +:+ "] ".


(** The write-back discipline [written only if changed], for a script's
    [process] on [agent] whose passes compute [passes content] from the
    text read: when the passes leave the text as it is, no [write_text]
    is made. *)
Definition writes_only_if_changed (process : io bool) (agent : string)
    (passes : string -> string) (w : world) : Prop :=
  ∀ content, file_text agent w = Some content →
    passes content = content →
    written (snd (process w)) = written w.

(** Unfolds the operations of [io] in a goal about a run. *)
Ltac run_io :=
  unfold mbind, io_bind, mret, io_ret, say, print, print_all, read_text,
    write_text, file_text in *; simpl in *.

(** How many of [agents] have their file in [w]. *)
Fixpoint present_count (w : world) (agents : list string) : nat :=
  match agents with
  | [] => 0
  | agent :: rest =>
      match file_text agent w with
      | Some _ => S (present_count w rest)
      | None => present_count w rest
      end
  end.

(** ** Reading a structured call site

    The observers below read the text of one structured call,
    [logger.<severity>({ <fields> }, '<message>');], the way the
    field/tag pairing property speaks about it: the names of the fields
    of its data object and the bracketed tags of its message. *)

Module CallSite.

(** The text after the first occurrence of the character [c]. *)
Fixpoint after (c : ascii) (s : string) : string :=
  match s with
  | EmptyString => ""
  | String d s' => if Ascii.eqb c d then s' else after c s'
  end.

(** The text before the first occurrence of the character [c]. *)
Fixpoint before (c : ascii) (s : string) : string :=
  match s with
  | EmptyString => ""
  | String d s' => if Ascii.eqb c d then "" else String d (before c s')
  end.








End CallSite.

(** ** The shape of a paired rewrite

    What the field/tag pairing asks of a rule of the variable extractor,
    for every match: the rule writes the call's opening text (group 1),
    a data object, the message, and the closing text, where the message
    is the captured message text with one bracketed tag put in for each
    interpolation reference, and the fields of the data object bear the
    names of these tags, in their order.  A field is written [name:
    value] or in shorthand, [name]; a value is a fixed text or a group
    of the match. *)

Module Paired.












End Paired.

(** The banner before which [add_logger] inserts: the text of group 2 of
    [insertion_point]. *)
Definition configuration_banner : string :=
  nl +:+ "// ============================================================================="
  +:+ nl +:+ "// ENVIRONMENT CONFIGURATION".

(** The prefixes that [main] passes are texts of ASCII letters.  No
    letter is special in a pattern, so for such a prefix the pattern
    source that the rewriter builds by splicing the prefix in is the
    pattern of [message_only], [message_data] and [message_error]. *)
Definition is_letter (c : ascii) : bool :=
  let n := nat_of_ascii c in
  (((65 <=? n) && (n <=? 90)) || ((97 <=? n) && (n <=? 122)))%nat.

Fixpoint letters_only (s : string) : bool :=
  match s with
  | EmptyString => true
  | String c s' => is_letter c && letters_only s'
  end.

(** Texts of code points below 128, on which [Re.is_space] is the white
    space of Python's [\s] and [str.strip]. *)
Fixpoint ascii_only (s : string) : bool :=
  match s with
  | EmptyString => true
  | String c s' => (nat_of_ascii c <? 128)%nat && ascii_only s'
  end.

(** * Properties *)

(** ** Facts about the matcher and [re.sub] *)

Section ReFacts.

Import Re.

Lemma append_cons c (a b : string) : String c a +:+ b = String c (a +:+ b).
Proof. reflexivity. Qed.

Lemma append_nil_l (b : string) : "" +:+ b = b.
Proof. reflexivity. Qed.

Lemma append_assoc (a b c : string) : (a +:+ b) +:+ c = a +:+ (b +:+ c).
Proof. induction a; rewrite ?append_cons, ?append_nil_l; congruence. Qed.

Lemma append_nil_r (a : string) : a +:+ "" = a.
Proof. induction a; rewrite ?append_cons, ?append_nil_l; congruence. Qed.

Lemma length_append (a b : string) :
  String.length (a +:+ b) = String.length a + String.length b.
Proof.
  induction a; rewrite ?append_cons, ?append_nil_l; simpl; congruence.
Qed.

Lemma strip_prefix_app p s r :
  strip_prefix p s = Some r ↔ s = p +:+ r.
Proof.
  revert s; induction p as [|a p IH]; intros s; simpl.
  - split; [intros [= ->] | intros ->]; reflexivity.
  - destruct s as [|b s]; [split; discriminate|].
    destruct (Ascii.eqb_spec a b) as [->|Hne].
    + rewrite IH. split; [intros -> | intros [= ->]]; reflexivity.
    + split; [discriminate | intros [= -> ->]; contradiction].
Qed.

Lemma strip_prefix_self p r : strip_prefix p (p +:+ r) = Some r.
Proof. apply strip_prefix_app; reflexivity. Qed.

(** Every match starts with the pattern's literal prefix. *)
Lemma run_literal_prefix r : ∀ s g k x,
  run r s g k = Some x → ∃ rest, s = literal_prefix r +:+ rest.
Proof.
  induction r as [l|cs|cs min gr|r1 IH1 r2 IH2|r1 IH1 r2 IH2|n r IH];
    intros s g k x H; simpl in *; try (exists s; reflexivity).
  - destruct (strip_prefix l s) as [s'|] eqn:E; [|discriminate].
    apply strip_prefix_app in E. eauto.
  - destruct r1; try (eapply IH1; exact H); try (exists s; reflexivity).
    simpl in H.
    destruct (strip_prefix s0 s) as [s'|] eqn:E; [|discriminate].
    apply strip_prefix_app in E. subst s.
    destruct (IH2 _ _ _ _ H) as [rest ->].
    exists rest. rewrite append_assoc. reflexivity.
  - eapply IH; exact H.
Qed.

Lemma match_at_literal_prefix r s m :
  match_at r s = Some m → ∃ rest, s = literal_prefix r +:+ rest.
Proof.
  unfold match_at.
  destruct (run r s [] _) as [[rest g]|] eqn:E; [|discriminate].
  intros _. eapply run_literal_prefix; exact E.
Qed.

Lemma contains_false_inv needle s :
  contains needle s = false →
  strip_prefix needle s = None
  ∧ ∀ c s', s = String c s' → contains needle s' = false.
Proof.
  destruct s as [|c s]; simpl.
  - destruct (strip_prefix needle ""); [discriminate|].
    split; [reflexivity | discriminate].
  - destruct (strip_prefix needle (String c s)); [discriminate|].
    intros H. split; [reflexivity | intros ? ? [= <- <-]; exact H].
Qed.

Lemma contains_false_no_match r s :
  contains (literal_prefix r) s = false → match_at r s = None.
Proof.
  intros H. apply contains_false_inv in H as [H _].
  destruct (match_at r s) as [m|] eqn:E; [|reflexivity].
  apply match_at_literal_prefix in E as [rest ->].
  rewrite strip_prefix_self in H. discriminate.
Qed.

(** A text in which the literal prefix of a pattern does not occur is
    left as it is by [re.sub], with no substitution. *)
Lemma subn_absent r repl limit s :
  contains (literal_prefix r) s = false →
  subn r repl limit s 0 = (s, 0).
Proof.
  revert limit; induction s as [|c s IH]; intros limit H; [reflexivity|].
  pose proof (contains_false_no_match _ _ H) as Hm.
  apply contains_false_inv in H as [_ H]. specialize (H c s eq_refl).
  simpl subn. rewrite Hm.
  destruct limit as [[|n]|]; try reflexivity; rewrite (IH _ H); reflexivity.
Qed.

Lemma sub_text_subn r repl s skip :
  fst (subn r repl None s skip) = sub_text r repl s skip.
Proof.
  revert skip; induction s as [|c s IH]; intros skip; [reflexivity|].
  destruct skip as [|j]; simpl; [|apply IH].
  destruct (match_at r (String c s)) as [[m [|len]]|].
  - specialize (IH 0). destruct (subn r repl None s 0); simpl in *; congruence.
  - specialize (IH len). simpl option_map.
    destruct (subn r repl None s len); simpl in *; congruence.
  - specialize (IH 0). destruct (subn r repl None s 0); simpl in *; congruence.
Qed.

Lemma sub_sub_text r repl s : sub r repl s = sub_text r repl s 0.
Proof. apply sub_text_subn. Qed.

End ReFacts.

(** ** What one run of a script does to the world *)

Section Runs.

Lemma asl_process_missing agent agent_prefix w :
  file_text agent w = None →
  AddStructuredLogging.process_agent_file agent agent_prefix w
  = (Ok false, World (files w) (console w ++ [FileNotFound agent]) (written w)).
Proof.
  intros H. unfold AddStructuredLogging.process_agent_file. run_io.
  rewrite H. reflexivity.
Qed.

Lemma asl_process_present agent agent_prefix w content :
  file_text agent w = Some content →
  ∃ ls,
    AddStructuredLogging.process_agent_file agent agent_prefix w
    = (Ok true,
       World (<[agent_path agent :=
                 AddStructuredLogging.rewritten content agent_prefix]> (files w))
             (console w ++ Processing agent :: ls ++ [Complete agent])
             (written w ++ [(agent_path agent,
                             AddStructuredLogging.rewritten content agent_prefix)])).
Proof.
  intros H.
  unfold AddStructuredLogging.process_agent_file,
    AddStructuredLogging.rewritten. run_io. rewrite H.
  destruct (AddStructuredLogging.add_logger content) as [c1 l1]; simpl.
  destruct (AddStructuredLogging.replace_console_log c1 agent_prefix) as [c2 l2]; simpl.
  destruct (AddStructuredLogging.replace_console_error c2 agent_prefix) as [c3 l3]; simpl.
  destruct (AddStructuredLogging.replace_console_warn c3 agent_prefix) as [c4 l4]; simpl.
  exists (l1 ++ l2 ++ l3 ++ l4)%list.
  f_equal. f_equal. rewrite <- !app_assoc. simpl. rewrite <- ?app_assoc. reflexivity.
Qed.

Lemma append_inv_tail (a b t : string) : a +:+ t = b +:+ t → a = b.
Proof.
  revert b; induction a as [|c a IH]; intros b H.
  - destruct b as [|d b]; [reflexivity|].
    apply (f_equal String.length) in H.
    rewrite append_nil_l, append_cons in H. simpl in H.
    rewrite length_append in H. lia.
  - destruct b as [|d b].
    + apply (f_equal String.length) in H.
      rewrite append_nil_l, append_cons in H. simpl in H.
      rewrite length_append in H. lia.
    + rewrite !append_cons in H. injection H as -> H.
      f_equal. apply IH, H.
Qed.

Lemma agent_path_inj a b : agent_path a = agent_path b → a = b.
Proof.
  unfold agent_path. intros H.
  apply strip_prefix_app in H. rewrite strip_prefix_self in H.
  injection H as H. eapply append_inv_tail, H.
Qed.

Lemma present_count_frame w1 w2 agents :
  (∀ a, a ∈ agents → file_text a w1 = file_text a w2) →
  present_count w1 agents = present_count w2 agents.
Proof.
  induction agents as [|a rest IH]; intros H; [reflexivity|].
  simpl. rewrite (H a) by (left).
  rewrite IH; [reflexivity|]. intros b Hb. apply H. right. exact Hb.
Qed.

Import AddStructuredLogging.

Lemma main_loop_cons a rest n :
  main_loop (a :: rest) n
  = (agent_prefix ← getitem agent_prefixes a;
     ok ← process_agent_file a agent_prefix;
     main_loop rest (if ok : bool then S n else n)).
Proof. reflexivity. Qed.

(** The loop of [main] on any duplicate-free list of agents that all
    have an entry in [agent_prefixes]. *)
Lemma main_loop_spec agents :
  NoDup agents →
  (∀ a, a ∈ agents →
     ∃ p, (a, p) ∈ agent_prefixes ∧ getitem agent_prefixes a = mret p) →
  ∀ n w, ∃ w' out,
    main_loop agents n w = (Ok (n + present_count w agents), w')
    ∧ console w' = (console w ++ out)%list
    ∧ (∀ q, (∀ a, a ∈ agents → q ≠ agent_path a) →
         files w' !! q = files w !! q)
    ∧ (∀ a, a ∈ agents → file_text a w = None →
         FileNotFound a ∈ out ∧ file_text a w' = None)
    ∧ (∀ a c, a ∈ agents → file_text a w = Some c →
         ∃ p, (a, p) ∈ agent_prefixes
              ∧ file_text a w' = Some (rewritten c p)
              ∧ Complete a ∈ out).
Proof.
  induction agents as [|a rest IH]; intros Hnd Hpre n w.
  - exists w, []. simpl. unfold mret, io_ret.
    rewrite Nat.add_0_r, app_nil_r.
    repeat split; try reflexivity; intros; exfalso; eapply not_elem_of_nil; eauto.
  - apply NoDup_cons in Hnd as [Hnotin Hnd].
    destruct (Hpre a) as (p & Hin & Hget); [left|].
    assert (Hpre' : ∀ b, b ∈ rest →
              ∃ p, (b, p) ∈ agent_prefixes ∧ getitem agent_prefixes b = mret p)
      by (intros b Hb; apply Hpre; right; exact Hb).
    specialize (IH Hnd Hpre').
    assert (Hne : ∀ b, b ∈ rest → agent_path a ≠ agent_path b).
    { intros b Hb E. apply agent_path_inj in E. subst b. contradiction. }
    rewrite main_loop_cons, Hget.
    unfold mbind at 1, io_bind at 1. unfold mret at 1, io_ret at 1.
    unfold mbind at 1, io_bind at 1.
    destruct (file_text a w) as [c|] eqn:Hfile.
    + destruct (asl_process_present a p w c Hfile) as [ls Hrun].
      rewrite Hrun.
      match goal with |- context [main_loop rest (S n) ?w1] =>
        destruct (IH (S n) w1) as (w' & out & Hloop & Hcon & Hframe & Hmiss & Hpres);
        set (w1' := w1) in *
      end.
      assert (Hsame : ∀ b, b ∈ rest → file_text b w1' = file_text b w).
      { intros b Hb. unfold file_text, w1'. simpl.
        apply lookup_insert_ne. apply Hne, Hb. }
      exists w', (Processing a :: ls ++ [Complete a] ++ out)%list.
      split; [|split; [|split; [|split]]].
      * rewrite Hloop. simpl present_count. rewrite Hfile.
        rewrite (present_count_frame w1' w rest Hsame). f_equal. f_equal. lia.
      * rewrite Hcon. unfold w1'. simpl. rewrite <- ?app_assoc. simpl.
        rewrite <- ?app_assoc. reflexivity.
      * intros q Hq. rewrite Hframe.
        -- unfold w1'. simpl. apply lookup_insert_ne.
           intros E. eapply Hq; [left | symmetry; exact E].
        -- intros b Hb. apply Hq. right. exact Hb.
      * intros b Hb Hnone. apply elem_of_cons in Hb as [->|Hb]; [congruence|].
        destruct (Hmiss b Hb) as [H1 H2]; [rewrite Hsame; assumption|].
        split; [|exact H2].
        right. apply elem_of_app. right. right. exact H1.
      * intros b cb Hb Hsome. apply elem_of_cons in Hb as [->|Hb].
        -- exists p. split; [exact Hin|]. split.
           ++ unfold file_text. rewrite Hframe.
              ** unfold w1'. simpl. rewrite lookup_insert_eq. congruence.
              ** intros b Hb. apply Hne, Hb.
           ++ right. apply elem_of_app. right. left.
        -- destruct (Hpres b cb Hb) as (pb & H1 & H2 & H3);
             [rewrite Hsame; assumption|].
           exists pb. split; [exact H1|]. split; [exact H2|].
           right. apply elem_of_app. right. right. exact H3.
    + rewrite (asl_process_missing a p w Hfile).
      match goal with |- context [main_loop rest n ?w1] =>
        destruct (IH n w1) as (w' & out & Hloop & Hcon & Hframe & Hmiss & Hpres);
        set (w1' := w1) in *
      end.
      assert (Hsame : ∀ b, file_text b w1' = file_text b w) by reflexivity.
      exists w', (FileNotFound a :: out)%list.
      split; [|split; [|split; [|split]]].
      * rewrite Hloop. simpl present_count. rewrite Hfile.
        rewrite (present_count_frame w1' w rest); [reflexivity|].
        intros; apply Hsame.
      * rewrite Hcon. unfold w1'. simpl. rewrite <- app_assoc. reflexivity.
      * intros q Hq. rewrite Hframe; [reflexivity|].
        intros b Hb. apply Hq. right. exact Hb.
      * intros b Hb Hnone. apply elem_of_cons in Hb as [->|Hb].
        -- split; [left|]. unfold file_text. rewrite Hframe; [exact Hfile|].
           intros b Hb. apply Hne, Hb.
        -- destruct (Hmiss b Hb) as [H1 H2]; [rewrite Hsame; assumption|].
           split; [right; exact H1 | exact H2].
      * intros b cb Hb Hsome. apply elem_of_cons in Hb as [->|Hb]; [congruence|].
        destruct (Hpres b cb Hb) as (pb & H1 & H2 & H3);
          [rewrite Hsame; assumption|].
        exists pb. split; [exact H1|]. split; [exact H2|]. right. exact H3.
Qed.

End Runs.

Section OrchestratorOfAddStructuredLogging.

Import AddStructuredLogging.

Lemma AGENTS_NoDup : NoDup AGENTS.
Proof. apply (bool_decide_unpack _). vm_compute. reflexivity. Qed.

Lemma AGENTS_have_prefixes a :
  a ∈ AGENTS →
  ∃ p, (a, p) ∈ agent_prefixes ∧ getitem agent_prefixes a = mret p.
Proof.
  unfold AGENTS, agent_prefixes. intros H.
  repeat (apply elem_of_cons in H as [->|H];
          [eexists; split; [|reflexivity]; set_solver|]).
  exfalso. eapply not_elem_of_nil, H.
Qed.

(** C9.  [main] always returns normally.  For every agent of the fixed
    list whose file is missing it prints the file-not-found line and
    leaves the file missing; every agent whose file exists is still
    processed to completion (its file holds the rewritten text and its
    completion line is printed); and the summary line reports the
    number of agents whose file existed over the length of the list. *)
Theorem main_reports_missing_and_continues (w : world) :
  ∃ w' out,
    main w = (Ok tt, w')
    ∧ console w' = (console w ++ out)%list
    ∧ (∀ agent, agent ∈ AGENTS → file_text agent w = None →
         FileNotFound agent ∈ out ∧ file_text agent w' = None)
    ∧ (∀ agent content, agent ∈ AGENTS → file_text agent w = Some content →
         ∃ agent_prefix, (agent, agent_prefix) ∈ agent_prefixes
           ∧ file_text agent w' = Some (rewritten content agent_prefix)
           ∧ Complete agent ∈ out)
    ∧ Summary (present_count w AGENTS) (List.length AGENTS) ∈ out.
Proof.
  unfold main.
  set (w0 := World (files w) ((console w ++ [Banner]) ++ [Banner]) (written w)).
  destruct (main_loop_spec AGENTS AGENTS_NoDup AGENTS_have_prefixes 0 w0)
    as (w1 & out & Hloop & Hcon & Hframe & Hmiss & Hpres).
  assert (Hcount : present_count w0 AGENTS = present_count w AGENTS)
    by (apply present_count_frame; reflexivity).
  rewrite Hcount in Hloop. simpl in Hloop.
  eexists _, (Banner :: Banner :: out ++ Banner
              :: Summary (present_count w AGENTS) (List.length AGENTS)
              :: [Banner; Banner; Banner; Banner])%list.
  split; [|split; [|split; [|split]]].
  - unfold mbind, io_bind, print. simpl. fold w0. rewrite Hloop. reflexivity.
  - simpl. rewrite Hcon. unfold w0. simpl.
    rewrite <- ?app_assoc. simpl. rewrite <- ?app_assoc. reflexivity.
  - intros a Ha Hnone. destruct (Hmiss a Ha Hnone) as [H1 H2].
    split; [|exact H2].
    right. right. apply elem_of_app. left. exact H1.
  - intros a c Ha Hsome. destruct (Hpres a c Ha Hsome) as (p & H1 & H2 & H3).
    exists p. split; [exact H1|]. split; [exact H2|].
    right. right. apply elem_of_app. left. exact H3.
  - right. right. apply elem_of_app. right. right. left.
Qed.

Lemma main_reports_missing_witness :
  ∃ (w' : world) (out : list line),
    main (one_file "booking" "console.log(`[BookingAgent] Starting`);") = (Ok tt, w')
    ∧ FileNotFound "concierge" ∈ out
    ∧ file_text "concierge" w' = None
    ∧ file_text "booking" w' = Some "logger.info({}, '[BookingAgent] Starting');"
    ∧ Summary 1 5 ∈ out.
Proof.
  destruct (main_reports_missing_and_continues
              (one_file "booking" "console.log(`[BookingAgent] Starting`);"))
    as (w' & out & Hrun & _ & Hmiss & Hpres & Hsum).
  exists w', out. split; [exact Hrun|].
  destruct (Hmiss "concierge") as [H1 H2];
    [apply (bool_decide_unpack _); vm_compute; reflexivity
    | vm_compute; reflexivity |].
  destruct (Hpres "booking" "console.log(`[BookingAgent] Starting`);")
    as (p & Hp & Hfile & _);
    [apply (bool_decide_unpack _); vm_compute; reflexivity
    | vm_compute; reflexivity |].
  split; [exact H1|]. split; [exact H2|].
  vm_compute in Hsum.
  split; [|exact Hsum].
  rewrite Hfile. f_equal.
  unfold agent_prefixes in Hp.
  repeat (apply elem_of_cons in Hp as [Hp|Hp]; [try discriminate Hp|]).
  - injection Hp as ->. vm_compute. reflexivity.
  - exfalso. eapply not_elem_of_nil, Hp.
Defined.

End OrchestratorOfAddStructuredLogging.


(** ** Scenarios of the call-site rewriter *)

Section Scenarios.

Import AddStructuredLogging.

(** C8.  On [console.error(`[Agent] Failed:`, error);] with prefix
    [Agent] the call-site rewriter (the error pass alone, and the three
    passes in the order [process_agent_file] runs them) gives the
    structured error call, the trailing colon of the message stripped,
    with one substitution counted. *)
Theorem scenario_B_error_call :
  replace_console_error_count "console.error(`[Agent] Failed:`, error);" "Agent"
  = ("logger.error({ error: error instanceof Error ? error.message : String(error) }, '[Agent] Failed');", 1)
  ∧ rewritten "console.error(`[Agent] Failed:`, error);" "Agent"
    = "logger.error({ error: error instanceof Error ? error.message : String(error) }, '[Agent] Failed');".
Proof. split; vm_compute; reflexivity. Qed.

(** C6.  The message-plus-data rule stops its trailing expression at the
    first closing parenthesis, so a [JSON.stringify(...)] application is
    matched by no rule: the call is left as it was, no substitution is
    counted, and no [data:] field is produced. *)
Theorem stringify_call_left_untouched :
  replace_console_log_count
    "console.log(`[Agent] msg`, JSON.stringify(args));" "Agent"
  = ("console.log(`[Agent] msg`, JSON.stringify(args));", 0)
  ∧ Re.contains "data:"
      (rewritten "console.log(`[Agent] msg`, JSON.stringify(args));" "Agent")
    = false.
Proof. split; vm_compute; reflexivity. Qed.

End Scenarios.

(** ** Writing back *)

Section WriteBack.

Lemma flv_process_present agent w content :
  file_text agent w = Some content →
  ∃ ls,
    FixLoggerVariables.process_agent_file agent w
    = (Ok true,
       World (<[agent_path agent := content]> (files w))
             (console w ++ ls)
             (written w ++ [(agent_path agent, content)])).
Proof.
  intros H. unfold FixLoggerVariables.process_agent_file. run_io. rewrite H.
  destruct (FixLoggerVariables.fix_logger_variables content) as [count ls]; simpl.
  destruct (0 <? count)%nat; simpl; eexists;
    rewrite <- ?app_assoc; simpl; rewrite <- ?app_assoc; reflexivity.
Qed.

Lemma flv_process_missing agent w :
  file_text agent w = None →
  FixLoggerVariables.process_agent_file agent w
  = (Ok false, World (files w) (console w ++ [FileNotFound agent]) (written w)).
Proof.
  intros H. unfold FixLoggerVariables.process_agent_file. run_io.
  rewrite H. reflexivity.
Qed.

(** The template normalizer's [process_agent_file] never changes what a
    file holds: what it writes, when it writes, is the text it read. *)
Lemma flt_process_keeps_files agent w :
  files (snd (FixLoggerTemplates.process_agent_file agent w)) = files w.
Proof.
  unfold FixLoggerTemplates.process_agent_file. run_io.
  destruct (files w !! agent_path agent) as [content|] eqn:H; simpl;
    [|reflexivity].
  destruct (0 <? FixLoggerTemplates.fix_logger_templates content)%nat; simpl;
    [|reflexivity].
  apply insert_id, H.
Qed.

(** C1.  On a file whose only line is a structured call with a
    single-quoted message holding [${sessionId}], the normalizer's
    pattern matches once and its local text has the message in
    backticks, but [fix_logger_templates] returns only the count: the
    text that [process_agent_file] writes back, and that the file then
    holds, is the single-quoted text it read.  The same holds of every
    run: no file changes. *)
Theorem normalizer_persists_text_read :
  FixLoggerTemplates.locals "logger.info({}, '[Agent] Session ${sessionId} ready');"
  = ("logger.info({}, `[Agent] Session ${sessionId} ready`);", 1)
  ∧ FixLoggerTemplates.fix_logger_templates
      "logger.info({}, '[Agent] Session ${sessionId} ready');" = 1
  ∧ file_text "booking"
      (snd (FixLoggerTemplates.process_agent_file "booking"
              (one_file "booking"
                 "logger.info({}, '[Agent] Session ${sessionId} ready');")))
    = Some "logger.info({}, '[Agent] Session ${sessionId} ready');"
  ∧ written
      (snd (FixLoggerTemplates.process_agent_file "booking"
              (one_file "booking"
                 "logger.info({}, '[Agent] Session ${sessionId} ready');")))
    = [(agent_path "booking",
        "logger.info({}, '[Agent] Session ${sessionId} ready');")]
  ∧ ∀ agent w,
      files (snd (FixLoggerTemplates.process_agent_file agent w)) = files w.
Proof.
  split; [vm_compute; reflexivity|].
  split; [vm_compute; reflexivity|].
  split; [vm_compute; reflexivity|].
  split; [vm_compute; reflexivity|].
  apply flt_process_keeps_files.
Qed.

(** C2, as stated, fails: a file that no pass of
    [add_structured_logging.py] changes is written back all the same. *)
Lemma write_back_without_change :
  ¬ writes_only_if_changed
      (AddStructuredLogging.process_agent_file "booking" "BookingAgent")
      "booking"
      (fun content => AddStructuredLogging.rewritten content "BookingAgent")
      (one_file "booking" "const x = 1;").
Proof.
  intros H. specialize (H "const x = 1;").
  assert (Hw : written (snd (AddStructuredLogging.process_agent_file
                               "booking" "BookingAgent"
                               (one_file "booking" "const x = 1;")))
               = [(agent_path "booking", "const x = 1;")])
    by (vm_compute; reflexivity).
  rewrite Hw in H. discriminate H; vm_compute; reflexivity.
Qed.

(** C2, amended.  [process_agent_file] of [add_structured_logging.py]
    and of [fix_logger_variables.py] write the file back exactly once
    whenever it exists, whether or not the text changed (the former
    writes the text its passes produced); they write nothing only when
    the file does not exist. *)
Theorem write_back_is_unconditional agent agent_prefix w :
  match file_text agent w with
  | Some content =>
      written (snd (AddStructuredLogging.process_agent_file agent agent_prefix w))
      = (written w ++ [(agent_path agent,
                        AddStructuredLogging.rewritten content agent_prefix)])%list
      ∧ ∃ text,
          written (snd (FixLoggerVariables.process_agent_file agent w))
          = (written w ++ [(agent_path agent, text)])%list
  | None =>
      written (snd (AddStructuredLogging.process_agent_file agent agent_prefix w))
      = written w
      ∧ written (snd (FixLoggerVariables.process_agent_file agent w))
        = written w
  end.
Proof.
  destruct (file_text agent w) as [content|] eqn:H.
  - destruct (asl_process_present agent agent_prefix w content H) as [ls ->].
    destruct (flv_process_present agent w content H) as [ls' ->].
    split; [reflexivity | eexists; reflexivity].
  - rewrite (asl_process_missing agent agent_prefix w H).
    rewrite (flv_process_missing agent w H). split; reflexivity.
Qed.

End WriteBack.

(** ** The variable extractor *)

Section Extractor.

Import FixLoggerVariables.

(** C3, as stated, fails: the text the extractor computes on the
    scenario input is not the text the scenario gives. *)
Lemma extractor_scenario_C_differs :
  fst (locals "logger.info({}, '[Agent] Session ${sessionId} ready');")
  ≠ "logger.info({ sessionId }, '[Agent] Session [sessionId] ready');".
Proof. apply String.eqb_neq. vm_compute. reflexivity. Qed.

(** C3, amended.  On the scenario input the session-identifier rule
    (rule 2 of the catalog) is the only rule that matches, once; its
    rewrite is a [logger.info] call that binds the field as
    [sessionId: sessionId] and whose message has the tag in place of
    the reference, after one more space, the rest of the message as it
    was. *)
Theorem extractor_scenario_C :
  fix_logger_variables "logger.info({}, '[Agent] Session ${sessionId} ready');"
  = (1, [FoundMatches 1 2])
  ∧ ∃ opening,
      Re.strip_prefix "logger.info(" opening ≠ None
      ∧ fst (locals "logger.info({}, '[Agent] Session ${sessionId} ready');")
        = opening
          +:+ "{ sessionId: sessionId }, '[Agent] Session  [sessionId] ready');".
Proof.
  split; [vm_compute; reflexivity|].
  exists "logger.info({}, ". split; [discriminate | vm_compute; reflexivity].
Qed.

(** C4.  A message with an [agentName] reference followed by a
    session-identifier reference is matched by the compound rule (rule
    5 of the catalog), but the loop reaches the single [agentName] rule
    (rule 1) first: that rule rewrites the call, after which neither
    the session rule nor the compound rule matches, and the session
    reference stays in the message. *)
Theorem compound_rule_is_preempted :
  (∃ pattern replacer,
      VARIABLE_PATTERNS !! 5 = Some (pattern, replacer)
      ∧ replacer
          <$> Re.finditer pattern
                "logger.info({}, '[Agent] ${agentName} has ${sessionId}');"
        = ["logger.info({}, { agentName, sessionId: sessionId }, '[Agent]  [agentName] has  [sessionId]');"])
  ∧ fix_logger_variables
      "logger.info({}, '[Agent] ${agentName} has ${sessionId}');"
    = (1, [FoundMatches 1 1])
  ∧ fst (locals "logger.info({}, '[Agent] ${agentName} has ${sessionId}');")
    = "logger.info({}, { agentName }, '[Agent]  [agentName] has ${sessionId}');".
Proof.
  split; [|split; vm_compute; reflexivity].
  eexists _, _. split; [reflexivity|]. vm_compute. reflexivity.
Qed.

End Extractor.

(** ** Fields and tags *)

Section Pairing.

Import CallSite.



End Pairing.

(** ** Running the passes again *)

Section SecondRun.

Import AddStructuredLogging.

Lemma message_only_prefix call p :
  Re.literal_prefix (message_only call p) = legacy_opener call p.
Proof.
  unfold message_only, legacy_opener. simpl.
  rewrite append_nil_r, !append_assoc. reflexivity.
Qed.

Lemma message_data_prefix p :
  Re.literal_prefix (message_data p) = legacy_opener "log" p.
Proof.
  unfold message_data, legacy_opener. simpl.
  rewrite append_nil_r. reflexivity.
Qed.

Lemma message_error_prefix p :
  Re.literal_prefix (message_error p) = legacy_opener "error" p.
Proof.
  unfold message_error, legacy_opener. simpl.
  rewrite append_nil_r. reflexivity.
Qed.








End SecondRun.

(** ** The logger declaration *)

Section Declarations.

Import Re FixLoggerDefinitionsFinal.

Lemma span_not_spec c s b r : span_not c s = (b, r) → s = b +:+ r.
Proof.
  revert b r; induction s as [|d s IH]; intros b r; simpl.
  - intros [= <- <-]. reflexivity.
  - destruct (Ascii.eqb d c); [intros [= <- <-]; reflexivity|].
    destruct (span_not c s) as [b' r']. intros [= <- <-].
    rewrite append_cons. f_equal. apply IH. reflexivity.
Qed.

Lemma span_not_rest c s b r :
  span_not c s = (b, r) → r = "" ∨ ∃ r', r = String c r'.
Proof.
  revert b r; induction s as [|d s IH]; intros b r; simpl.
  - intros [= <- <-]. left. reflexivity.
  - destruct (Ascii.eqb_spec d c) as [->|Hne].
    + intros [= <- <-]. right. eauto.
    + destruct (span_not c s) as [b' r']. intros [= <- <-].
      eapply IH. reflexivity.
Qed.

(** A greedy repetition of [[^c]] whose continuation can only go on at
    a [c] runs to the first [c] and does not come back. *)
Lemma rep_greedy_except c min s g (k : cont) :
  (∀ d s' g', d ≠ c → k (String d s') g' = None) →
  rep_greedy (Except c) min s g k
  = let (b, r) := span_not c s in
    if (min <=? String.length b)%nat then k r g else None.
Proof.
  intros Hk. revert min; induction s as [|d s IH]; intros min; simpl.
  - destruct min; reflexivity.
  - destruct (Ascii.eqb_spec d c) as [->|Hne]; simpl.
    + destruct min; reflexivity.
    + rewrite IH. destruct (span_not c s) as [b r]. simpl.
      destruct min as [|min]; simpl.
      * destruct (k r g); [reflexivity|]. apply Hk, Hne.
      * destruct (min <=? String.length b)%nat; [|reflexivity].
        destruct (k r g); reflexivity.
Qed.

Lemma strip_prefix_length p s r :
  strip_prefix p s = Some r → String.length s = String.length p + String.length r.
Proof. intros H. apply strip_prefix_app in H. subst. apply length_append. Qed.

Lemma strip_prefix_cons_ne c p d s :
  d ≠ c → strip_prefix (String c p) (String d s) = None.
Proof.
  intros H. simpl. destruct (Ascii.eqb_spec c d); [congruence | reflexivity].
Qed.

(** The pattern's matches, in terms of [declaration_at]. *)
Lemma match_at_declaration s :
  match match_at pattern s with
  | Some (m, S len) => declaration_at s = true
  | Some (m, 0) => False
  | None => declaration_at s = false
  end.
Proof.
  unfold match_at, pattern, declaration_at. cbn [run].
  destruct (strip_prefix "const logger = {" s) as [s1|] eqn:E1; [|reflexivity].
  rewrite rep_greedy_except.
  2:{ intros d s' g' Hne. cbn [run].
      rewrite strip_prefix_cons_ne by exact Hne. reflexivity. }
  destruct (span_not "}" s1) as [b r] eqn:E2.
  destruct (1 <=? String.length b)%nat eqn:E3; [|reflexivity].
  cbn [run].
  destruct (strip_prefix "};" r) as [rest|] eqn:E4; [|reflexivity].
  apply strip_prefix_length in E1, E4. apply span_not_spec in E2.
  apply Nat.leb_le in E3.
  subst s1. rewrite length_append in E1. simpl in E1, E4.
  destruct (String.length s - String.length rest) eqn:E5; [lia | reflexivity].
Qed.

Lemma fix_from_skip c s j : fix_from (String c s) (S j) = fix_from s j.
Proof. reflexivity. Qed.

Lemma fix_from_miss c s :
  declaration_at (String c s) = false →
  fix_from (String c s) 0 = String c (fix_from s 0).
Proof.
  intros H. unfold fix_from. simpl.
  pose proof (match_at_declaration (String c s)) as M.
  destruct (match_at pattern (String c s)) as [[m [|len]]|];
    [reflexivity | congruence | reflexivity].
Qed.

Lemma fix_from_hit c s :
  declaration_at (String c s) = true →
  ∃ len, fix_from (String c s) 0 = CORRECT_LOGGER +:+ fix_from s len.
Proof.
  intros H. unfold fix_from. simpl.
  pose proof (match_at_declaration (String c s)) as M.
  destruct (match_at pattern (String c s)) as [[m [|len]]|];
    [contradiction | eauto | congruence].
Qed.

Lemma span_not_clean c s b r : span_not c s = (b, r) → span_not c b = (b, "").
Proof.
  revert b r; induction s as [|d s IH]; intros b r; simpl.
  - intros [= <- <-]. reflexivity.
  - destruct (Ascii.eqb d c) eqn:E; [intros [= <- <-]; reflexivity|].
    destruct (span_not c s) as [b' r']. intros [= <- <-].
    simpl. rewrite E. rewrite (IH b' r' eq_refl). reflexivity.
Qed.

Lemma span_not_app c b x :
  span_not c b = (b, "") →
  span_not c (b +:+ x) = let (b', r') := span_not c x in (b +:+ b', r').
Proof.
  induction b as [|d b IH]; intros H.
  - rewrite append_nil_l. destruct (span_not c x). reflexivity.
  - simpl in H. rewrite append_cons. simpl.
    destruct (Ascii.eqb d c); [discriminate|].
    destruct (span_not c b) as [b1 r1]. injection H as H1 H2. subst r1.
    rewrite H1 in IH. rewrite IH by reflexivity.
    destruct (span_not c x). reflexivity.
Qed.

(** The canonical declaration is not matched, whatever follows it. *)
Lemma fix_from_CORRECT_LOGGER x :
  fix_from (CORRECT_LOGGER +:+ x) 0 = CORRECT_LOGGER +:+ fix_from x 0.
Proof. unfold fix_from. vm_compute. reflexivity. Qed.

Lemma span_CORRECT_LOGGER x :
  ∃ b r, span_not "}" (CORRECT_LOGGER +:+ x) = (b, String "}" (String ")" r)).
Proof. vm_compute. eauto. Qed.

(** [declaration_at] spelled out. *)
Lemma declaration_at_true s :
  declaration_at s = true ↔
  ∃ body rest,
    s = "const logger = {" +:+ body +:+ "};" +:+ rest
    ∧ body ≠ "" ∧ span_not "}" body = (body, "").
Proof.
  unfold declaration_at. split.
  - destruct (strip_prefix "const logger = {" s) as [s1|] eqn:E1; [|discriminate].
    destruct (span_not "}" s1) as [b r] eqn:E2.
    intros H. apply andb_true_iff in H as [H1 H2].
    destruct (strip_prefix "};" r) as [rest|] eqn:E3; [|discriminate].
    apply strip_prefix_app in E1, E3. pose proof (span_not_spec _ _ _ _ E2).
    exists b, rest. subst. split; [reflexivity|]. split.
    + intros ->. discriminate H1.
    + eapply span_not_clean, E2.
  - intros (body & rest & -> & Hne & Hclean).
    rewrite strip_prefix_self, (span_not_app _ _ _ Hclean).
    rewrite !append_cons, append_nil_l. simpl span_not. cbv beta iota.
    rewrite append_nil_r. destruct body; [contradiction|]. reflexivity.
Qed.

Lemma fix_from_semicolon t z :
  fix_from t 0 = String ";" z → ∃ t', t = String ";" t'.
Proof.
  destruct t as [|d t]; [discriminate|].
  destruct (declaration_at (String d t)) eqn:E.
  - destruct (fix_from_hit _ _ E) as [len ->]. discriminate.
  - rewrite (fix_from_miss _ _ E). intros [= -> _]. eauto.
Qed.

(** Up to the first [}] of [s], [re.sub] either copies the text or has
    put the canonical declaration after a part without [}]. *)
Lemma fix_from_first_brace s :
  let (b, r) := span_not "}" s in
  fix_from s 0 = b +:+ fix_from r 0
  ∨ ∃ pre z,
      fix_from s 0 = pre +:+ CORRECT_LOGGER +:+ z
      ∧ span_not "}" pre = (pre, "").
Proof.
  induction s as [|d s IH]; [left; reflexivity|].
  simpl span_not. destruct (Ascii.eqb d "}") eqn:Ed; [left; reflexivity|].
  destruct (span_not "}" s) as [b r].
  destruct (declaration_at (String d s)) eqn:E.
  - destruct (fix_from_hit _ _ E) as [len ->].
    right. exists "", (fix_from s len). split; reflexivity.
  - rewrite (fix_from_miss _ _ E). destruct IH as [->|(pre & z & -> & Hpre)].
    + left. reflexivity.
    + right. exists (String d pre), z. split; [reflexivity|].
      simpl. rewrite Ed, Hpre. reflexivity.
Qed.

(** No new declaration appears at a place where there was none. *)
Lemma declaration_at_fix_from s :
  declaration_at s = false → declaration_at (fix_from s 0) = false.
Proof.
  intros Hs. destruct (declaration_at (fix_from s 0)) eqn:Hy; [|reflexivity].
  exfalso. apply declaration_at_true in Hy as (body & rest & Hy & Hne & Hclean).
  assert (Hspan : span_not "}" (fix_from s 0)
                  = ("const logger = {" +:+ body, "};" +:+ rest)).
  { rewrite Hy, <- append_assoc.
    rewrite span_not_app.
    - rewrite !append_cons, append_nil_l. simpl span_not. cbv beta iota.
      rewrite append_nil_r. reflexivity.
    - rewrite (span_not_app "}" "const logger = {" body) by reflexivity.
      rewrite Hclean. reflexivity. }
  pose proof (fix_from_first_brace s) as P.
  destruct (span_not "}" s) as [b r] eqn:Es.
  pose proof (span_not_clean _ _ _ _ Es) as Hb.
  destruct P as [P|(pre & z & P & Hpre)].
  - destruct (span_not_rest _ _ _ _ Es) as [->|[r' ->]].
    + rewrite P in Hspan. change (fix_from "" 0) with "" in Hspan.
      rewrite (append_nil_r b), Hb in Hspan. discriminate Hspan.
    + rewrite (fix_from_miss "}" r') in P by reflexivity.
      rewrite P, (span_not_app _ _ _ Hb) in Hspan. simpl span_not in Hspan.
      cbv beta iota in Hspan. rewrite append_nil_r in Hspan. injection Hspan as Hb' Hr.
      apply fix_from_semicolon in Hr as [r'' ->].
      apply span_not_spec in Es. rewrite Es, Hb' in Hs.
      assert (Ht : declaration_at
                     (("const logger = {" +:+ body) +:+ String "}" (String ";" r''))
                   = true).
      { apply declaration_at_true. exists body, r''.
        rewrite append_assoc. auto. }
      congruence.
  - rewrite P, (span_not_app _ _ _ Hpre) in Hspan.
    destruct (span_CORRECT_LOGGER z) as (b' & r' & E).
    rewrite E in Hspan. discriminate Hspan.
Qed.

Lemma fix_from_idempotent s : ∀ skip,
  fix_from (fix_from s skip) 0 = fix_from s skip.
Proof.
  induction s as [|c s IH]; intros skip; [reflexivity|].
  destruct skip as [|j]; [|rewrite fix_from_skip; apply IH].
  destruct (declaration_at (String c s)) eqn:E.
  - destruct (fix_from_hit _ _ E) as [len ->].
    rewrite fix_from_CORRECT_LOGGER, IH. reflexivity.
  - pose proof (declaration_at_fix_from _ E) as E'.
    rewrite (fix_from_miss _ _ E) in *.
    rewrite (fix_from_miss _ _ E'), IH. reflexivity.
Qed.

Lemma fix_logger_definition_fix_from content :
  fix_logger_definition content = fix_from content 0.
Proof. unfold fix_logger_definition, fix_from. apply sub_sub_text. Qed.

(** C10, as stated, fails: a document that holds the canonical
    declaration and, after it, another declaration with a brace-free
    body is changed (the other declaration is replaced). *)
Lemma document_with_canonical_logger_changes :
  Re.contains CORRECT_LOGGER (CORRECT_LOGGER +:+ nl +:+ "const logger = {a};")
  = true
  ∧ fix_logger_definition (CORRECT_LOGGER +:+ nl +:+ "const logger = {a};")
    = CORRECT_LOGGER +:+ nl +:+ CORRECT_LOGGER
  ∧ fix_logger_definition (CORRECT_LOGGER +:+ nl +:+ "const logger = {a};")
    ≠ CORRECT_LOGGER +:+ nl +:+ "const logger = {a};".
Proof.
  split; [vm_compute; reflexivity|].
  split; [vm_compute; reflexivity|].
  apply String.eqb_neq. vm_compute. reflexivity.
Qed.

(** C10, amended.  [fix_logger_definition] never rewrites the canonical
    declaration itself: [CORRECT_LOGGER] alone is returned unchanged,
    and in a text that starts with it the declaration is kept and only
    what follows is processed.  Applying [fix_logger_definition] twice
    to any document gives the same result as applying it once. *)
Theorem fix_logger_definition_idempotent :
  fix_logger_definition CORRECT_LOGGER = CORRECT_LOGGER
  ∧ (∀ x, fix_logger_definition (CORRECT_LOGGER +:+ x)
          = CORRECT_LOGGER +:+ fix_logger_definition x)
  ∧ (∀ content, fix_logger_definition (fix_logger_definition content)
                = fix_logger_definition content).
Proof.
  split; [vm_compute; reflexivity|].
  split; intros; rewrite !fix_logger_definition_fix_from.
  - apply fix_from_CORRECT_LOGGER.
  - apply fix_from_idempotent.
Qed.

End Declarations.

(** * Further properties of the scripts *)

(** ** Scripts that leave every file as it was *)

Section KeptFiles.

Lemma flt_process_runs agent w :
  ∃ b w', FixLoggerTemplates.process_agent_file agent w = (Ok b, w')
          ∧ files w' = files w.
Proof.
  unfold FixLoggerTemplates.process_agent_file. run_io.
  destruct (files w !! agent_path agent) as [content|] eqn:H; simpl;
    [|eauto].
  destruct (0 <? FixLoggerTemplates.fix_logger_templates content)%nat; simpl;
    [|eauto].
  do 2 eexists. split; [reflexivity|]. simpl. apply insert_id, H.
Qed.

Lemma flv_process_runs agent w :
  ∃ b w', FixLoggerVariables.process_agent_file agent w = (Ok b, w')
          ∧ files w' = files w.
Proof.
  destruct (file_text agent w) as [content|] eqn:H.
  - destruct (flv_process_present agent w content H) as [ls ->].
    do 2 eexists. split; [reflexivity|]. simpl. apply insert_id, H.
  - rewrite (flv_process_missing agent w H). eauto.
Qed.

Lemma flt_main_loop_runs agents : ∀ w,
  ∃ w', FixLoggerTemplates.main_loop agents w = (Ok tt, w')
        ∧ files w' = files w.
Proof.
  induction agents as [|a rest IH]; intros w; [exists w; split; reflexivity|].
  simpl. unfold mbind, io_bind.
  destruct (flt_process_runs a w) as (b & w1 & -> & H1).
  destruct (IH w1) as (w' & -> & H2). exists w'. split; congruence.
Qed.

Lemma flv_main_loop_runs agents : ∀ w,
  ∃ w', FixLoggerVariables.main_loop agents w = (Ok tt, w')
        ∧ files w' = files w.
Proof.
  induction agents as [|a rest IH]; intros w; [exists w; split; reflexivity|].
  simpl. unfold mbind, io_bind.
  destruct (flv_process_runs a w) as (b & w1 & -> & H1).
  destruct (IH w1) as (w' & -> & H2). exists w'. split; congruence.
Qed.

(** X1.  In every world, [main] of [fix_logger_templates.py] ends normally and
    leaves every file with the text it had. *)
Theorem templates_main_keeps_every_file (w : world) :
  ∃ w', FixLoggerTemplates.main w = (Ok tt, w') ∧ files w' = files w.
Proof.
  unfold FixLoggerTemplates.main. generalize AGENTS. intros agents.
  unfold mbind, io_bind, print. simpl.
  match goal with |- context [FixLoggerTemplates.main_loop agents ?w0] =>
    destruct (flt_main_loop_runs agents w0) as (w1 & -> & H) end.
  eexists. split; [reflexivity|]. exact H.
Qed.

(** X2.  In every world, [main] of [fix_logger_variables.py] ends normally and
    leaves every file with the text it had. *)
Theorem variables_main_keeps_every_file (w : world) :
  ∃ w', FixLoggerVariables.main w = (Ok tt, w') ∧ files w' = files w.
Proof.
  unfold FixLoggerVariables.main. generalize AGENTS. intros agents.
  unfold mbind, io_bind, print. simpl.
  match goal with |- context [FixLoggerVariables.main_loop agents ?w0] =>
    destruct (flv_main_loop_runs agents w0) as (w1 & -> & H) end.
  eexists. split; [reflexivity|]. exact H.
Qed.

End KeptFiles.

(** ** The run of [fix_logger_definitions_final.py] *)

Section DefinitionsRun.

Import FixLoggerDefinitionsFinal.

Lemma fldf_main_loop_spec agents :
  NoDup agents →
  ∀ w, ∃ w',
    main_loop agents w = (Ok tt, w')
    ∧ ∀ q, files w' !! q
           = if bool_decide (q ∈ agent_path <$> agents)
             then fix_logger_definition <$> files w !! q
             else files w !! q.
Proof.
  induction agents as [|a rest IH]; intros Hnd w.
  - exists w. split; [reflexivity|]. intros q. reflexivity.
  - apply NoDup_cons in Hnd as [Hnotin Hnd]. specialize (IH Hnd).
    assert (Hfresh : agent_path a ∉ agent_path <$> rest).
    { intros Hin. apply list_elem_of_fmap in Hin as (b & E & Hb).
      apply agent_path_inj in E. subst b. contradiction. }
    simpl main_loop. unfold mbind at 1, io_bind at 1, read_text at 1.
    destruct (files w !! agent_path a) as [content|] eqn:Hfile.
    + unfold mbind, io_bind, write_text, print. simpl.
      match goal with |- context [main_loop rest ?w1] =>
        destruct (IH w1) as (w' & -> & Hfiles) end.
      exists w'. split; [reflexivity|]. intros q. rewrite Hfiles. simpl.
      rewrite ?fmap_cons.
      destruct (decide (q = agent_path a)) as [->|Hne].
      * rewrite (bool_decide_eq_false_2 _ Hfresh).
        rewrite bool_decide_eq_true_2 by left.
        rewrite lookup_insert_eq, Hfile. reflexivity.
      * rewrite lookup_insert_ne by congruence.
        destruct (decide (q ∈ agent_path <$> rest)) as [Hin|Hout].
        -- rewrite !bool_decide_eq_true_2; [reflexivity | right; exact Hin | exact Hin].
        -- rewrite !bool_decide_eq_false_2; [reflexivity | | exact Hout].
           intros Hin. apply elem_of_cons in Hin as [?|?]; contradiction.
    + destruct (IH w) as (w' & -> & Hfiles).
      exists w'. split; [reflexivity|]. intros q. rewrite Hfiles.
      rewrite ?fmap_cons.
      destruct (decide (q = agent_path a)) as [->|Hne].
      * rewrite (bool_decide_eq_false_2 _ Hfresh).
        rewrite bool_decide_eq_true_2 by left.
        rewrite Hfile. reflexivity.
      * destruct (decide (q ∈ agent_path <$> rest)) as [Hin|Hout].
        -- rewrite !bool_decide_eq_true_2; [reflexivity | right; exact Hin | exact Hin].
        -- rewrite !bool_decide_eq_false_2; [reflexivity | | exact Hout].
           intros Hin. apply elem_of_cons in Hin as [?|?]; contradiction.
Qed.

(** X3.  In every world, [main] ends normally; the file of each agent of the
    list that exists holds [fix_logger_definition] of its text, a missing
    file stays missing, and every other path is as it was. *)
Theorem definitions_main_rewrites_agent_files (w : world) :
  ∃ w', main w = (Ok tt, w')
        ∧ (∀ agent, agent ∈ AGENTS →
             file_text agent w' = fix_logger_definition <$> file_text agent w)
        ∧ (∀ q, q ∉ agent_path <$> AGENTS → files w' !! q = files w !! q).
Proof.
  destruct (fldf_main_loop_spec AGENTS AGENTS_NoDup w) as (w' & Hrun & Hfiles).
  exists w'. split; [exact Hrun|]. split.
  - intros a Ha. unfold file_text. rewrite Hfiles.
    rewrite bool_decide_eq_true_2; [reflexivity|].
    apply list_elem_of_fmap. eauto.
  - intros q Hq. rewrite Hfiles, bool_decide_eq_false_2; [reflexivity | exact Hq].
Qed.

(** X4.  Running [main] a second time changes no file. *)
Theorem definitions_main_twice (w : world) :
  files (snd (main (snd (main w)))) = files (snd (main w)).
Proof.
  destruct (fldf_main_loop_spec AGENTS AGENTS_NoDup w) as (w1 & Hrun1 & H1).
  destruct (fldf_main_loop_spec AGENTS AGENTS_NoDup w1) as (w2 & Hrun2 & H2).
  unfold main. rewrite Hrun1. cbn [snd]. rewrite Hrun2. cbn [snd].
  apply map_eq. intros q. rewrite H2, H1.
  destruct (bool_decide (q ∈ agent_path <$> AGENTS)); [|reflexivity].
  destruct (files w !! q) as [c|]; [|reflexivity]. simpl. f_equal.
  rewrite !fix_logger_definition_fix_from. apply fix_from_idempotent.
Qed.

End DefinitionsRun.

(** ** What [main] of [add_structured_logging.py] writes *)

Section WritesOfMain.

Import AddStructuredLogging.

Lemma asl_main_loop_writes agents :
  NoDup agents →
  (∀ a, a ∈ agents →
     ∃ p, (a, p) ∈ agent_prefixes ∧ getitem agent_prefixes a = mret p) →
  ∀ n w, ∃ w' k ws,
    main_loop agents n w = (Ok k, w')
    ∧ written w' = (written w ++ ws)%list
    ∧ List.length ws = present_count w agents
    ∧ Forall (fun pt => pt.1 ∈ agent_path <$> agents) ws.
Proof.
  induction agents as [|a rest IH]; intros Hnd Hpre n w.
  - exists w, n, []. simpl. rewrite app_nil_r. repeat split. constructor.
  - apply NoDup_cons in Hnd as [Hnotin Hnd].
    destruct (Hpre a) as (p & Hin & Hget); [left|].
    assert (Hpre' : ∀ b, b ∈ rest →
              ∃ p, (b, p) ∈ agent_prefixes ∧ getitem agent_prefixes b = mret p)
      by (intros b Hb; apply Hpre; right; exact Hb).
    specialize (IH Hnd Hpre').
    assert (Hne : ∀ b, b ∈ rest → agent_path a ≠ agent_path b).
    { intros b Hb E. apply agent_path_inj in E. subst b. contradiction. }
    rewrite main_loop_cons, Hget.
    unfold mbind at 1, io_bind at 1. unfold mret at 1, io_ret at 1.
    unfold mbind at 1, io_bind at 1.
    destruct (file_text a w) as [c|] eqn:Hfile.
    + destruct (asl_process_present a p w c Hfile) as [ls Hrun]. rewrite Hrun.
      match goal with |- context [main_loop rest (S n) ?w1] =>
        destruct (IH (S n) w1) as (w' & k & ws & Hloop & Hw & Hlen & Hall);
        set (w1' := w1) in *
      end.
      assert (Hsame : ∀ b, b ∈ rest → file_text b w1' = file_text b w).
      { intros b Hb. unfold file_text, w1'. simpl.
        apply lookup_insert_ne. apply Hne, Hb. }
      exists w', k, ((agent_path a, rewritten c p) :: ws).
      split; [exact Hloop|]. split; [|split].
      * rewrite Hw. unfold w1'. simpl. rewrite <- app_assoc. reflexivity.
      * simpl. rewrite Hfile, Hlen.
        rewrite (present_count_frame w1' w rest Hsame). reflexivity.
      * constructor; [cbn [fst]; rewrite fmap_cons; left|].
        eapply Forall_impl; [exact Hall|]. intros pt Hpt.
        rewrite fmap_cons. right. exact Hpt.
    + rewrite (asl_process_missing a p w Hfile).
      match goal with |- context [main_loop rest n ?w1] =>
        destruct (IH n w1) as (w' & k & ws & Hloop & Hw & Hlen & Hall);
        set (w1' := w1) in *
      end.
      exists w', k, ws.
      split; [exact Hloop|]. split; [|split].
      * rewrite Hw. reflexivity.
      * simpl. rewrite Hfile, Hlen. apply present_count_frame. reflexivity.
      * eapply Forall_impl; [exact Hall|]. intros pt Hpt.
        rewrite fmap_cons. right. exact Hpt.
Qed.

(** X5.  In every world, [main] calls [write_text] once for each agent of the
    list whose file exists and for nothing else: the new writes are as
    many as the existing agent files, each to an agent's path, and every
    path that is not an agent's path holds what it held. *)
Theorem main_writes_agent_files_only (w : world) :
  ∃ w' ws,
    main w = (Ok tt, w')
    ∧ written w' = (written w ++ ws)%list
    ∧ List.length ws = present_count w AGENTS
    ∧ Forall (fun pt => pt.1 ∈ agent_path <$> AGENTS) ws
    ∧ ∀ q, q ∉ agent_path <$> AGENTS → files w' !! q = files w !! q.
Proof.
  unfold main.
  set (w0 := World (files w) ((console w ++ [Banner]) ++ [Banner]) (written w)).
  destruct (asl_main_loop_writes AGENTS AGENTS_NoDup AGENTS_have_prefixes 0 w0)
    as (w1 & k & ws & Hloop & Hw & Hlen & Hall).
  destruct (main_loop_spec AGENTS AGENTS_NoDup AGENTS_have_prefixes 0 w0)
    as (w1' & out & Hloop' & _ & Hframe & _).
  rewrite Hloop in Hloop'. injection Hloop' as _ <-.
  eexists _, ws. split; [|split; [|split; [|split]]].
  - unfold mbind, io_bind, print. cbn [fst snd files console written].
    fold w0. rewrite Hloop. reflexivity.
  - cbn [written]. exact Hw.
  - rewrite Hlen. apply present_count_frame. reflexivity.
  - exact Hall.
  - intros q Hq. cbn [files]. rewrite Hframe; [reflexivity|].
    intros a Ha ->. apply Hq. apply list_elem_of_fmap. eauto.
Qed.

End WritesOfMain.

(** ** Text that a pass does not touch *)

Section Untouched.

Import Re.

Lemma strip_prefix_append_none p x s :
  strip_prefix p s = None → strip_prefix (p +:+ x) s = None.
Proof.
  revert s; induction p as [|a p IH]; intros s; simpl; [discriminate|].
  rewrite ?append_cons. simpl.
  destruct s as [|b s]; [reflexivity|].
  destruct (Ascii.eqb a b); [apply IH | reflexivity].
Qed.

Lemma contains_append_false p x s :
  contains p s = false → contains (p +:+ x) s = false.
Proof.
  induction s as [|c s IH]; intros H;
    apply contains_false_inv in H as [H1 H2]; simpl;
    rewrite (strip_prefix_append_none _ x _ H1); [reflexivity|].
  apply IH. eapply H2. reflexivity.
Qed.

Lemma finditer_absent r s :
  contains (literal_prefix r) s = false → finditer r s = [].
Proof.
  unfold finditer. induction s as [|c s IH]; intros H; [reflexivity|].
  pose proof (contains_false_no_match _ _ H) as Hm.
  apply contains_false_inv in H as [_ H]. specialize (H c s eq_refl).
  simpl. rewrite Hm. apply IH, H.
Qed.



(** X7.  A document without the text [logger.] has no match of the
    normalizer's pattern: its local text is the document and its count
    is zero. *)
Theorem normalizer_ignores_text_without_logger content :
  contains "logger." content = false →
  FixLoggerTemplates.locals content = (content, 0)
  ∧ FixLoggerTemplates.fix_logger_templates content = 0.
Proof.
  intros H.
  assert (E : FixLoggerTemplates.locals content = (content, 0))
    by (apply subn_absent; exact H).
  split; [exact E|]. unfold FixLoggerTemplates.fix_logger_templates.
  rewrite E. reflexivity.
Qed.

Lemma normalizer_ignores_witness :
  FixLoggerTemplates.locals "console.log('${x}');" = ("console.log('${x}');", 0)
  ∧ FixLoggerTemplates.fix_logger_templates "console.log('${x}');" = 0.
Proof.
  apply normalizer_ignores_text_without_logger. vm_compute. reflexivity.
Defined.

Lemma VARIABLE_PATTERNS_open_with_logger :
  Forall (fun rule => ∃ x, literal_prefix (fst rule) = "logger." +:+ x)
         FixLoggerVariables.VARIABLE_PATTERNS.
Proof.
  unfold FixLoggerVariables.VARIABLE_PATTERNS.
  repeat (apply Forall_cons; split; [eexists; vm_compute; reflexivity|]).
  apply Forall_nil. exact I.
Qed.

Lemma extractor_loop_absent rules : ∀ i content count,
  Forall (fun rule => ∃ x, literal_prefix (fst rule) = "logger." +:+ x) rules →
  contains "logger." content = false →
  FixLoggerVariables.loop rules i content count = ((content, count), []).
Proof.
  induction rules as [|[pattern replacer] rules IH]; intros i content count Hall H;
    [reflexivity|].
  apply Forall_cons in Hall as [[x Hx] Hall]. simpl in Hx.
  simpl. rewrite finditer_absent; [apply IH; assumption|].
  rewrite Hx. apply contains_append_false, H.
Qed.

(** X8.  A document without the text [logger.] is matched by no rule of the
    extractor's catalog: nothing is printed, the count is zero and the
    local text is the document. *)
Theorem extractor_ignores_text_without_logger content :
  contains "logger." content = false →
  FixLoggerVariables.fix_logger_variables content = (0, [])
  ∧ FixLoggerVariables.locals content = (content, 0).
Proof.
  intros H.
  unfold FixLoggerVariables.fix_logger_variables, FixLoggerVariables.locals.
  rewrite (extractor_loop_absent _ 0 content 0 VARIABLE_PATTERNS_open_with_logger H).
  split; reflexivity.
Qed.

Lemma extractor_ignores_witness :
  FixLoggerVariables.fix_logger_variables "console.log('${tenantId}');" = (0, [])
  ∧ FixLoggerVariables.locals "console.log('${tenantId}');"
    = ("console.log('${tenantId}');", 0).
Proof.
  apply extractor_ignores_text_without_logger. vm_compute. reflexivity.
Defined.

(** X9.  A document without the text [const logger = {] is returned as it is
    by [fix_logger_definition]. *)
Theorem fix_logger_definition_without_declaration content :
  contains "const logger = {" content = false →
  FixLoggerDefinitionsFinal.fix_logger_definition content = content.
Proof.
  intros H. unfold FixLoggerDefinitionsFinal.fix_logger_definition, sub.
  rewrite subn_absent by exact H. reflexivity.
Qed.

Lemma fix_logger_definition_without_declaration_witness :
  FixLoggerDefinitionsFinal.fix_logger_definition "let logger = {a};"
  = "let logger = {a};".
Proof.
  apply fix_logger_definition_without_declaration. vm_compute. reflexivity.
Defined.

End Untouched.

(** ** How a match lies in the text *)

Section MatchShape.

Import Re.

Lemma take_append (a b : string) : take (String.length a) (a +:+ b) = a.
Proof.
  induction a as [|c a IH]; simpl; [destruct b; reflexivity|].
  rewrite IH. reflexivity.
Qed.

Lemma consumed_append (a b : string) : consumed (a +:+ b) b = a.
Proof.
  unfold consumed. rewrite length_append.
  replace (String.length a + String.length b - String.length b)
    with (String.length a) by lia.
  apply take_append.
Qed.

Lemma rep_greedy_cps cs : ∀ s min g k x,
  rep_greedy cs min s g k = Some x →
  ∃ pre s', s = pre +:+ s' ∧ k s' g = Some x.
Proof.
  induction s as [|c s IH]; intros min g k x; simpl.
  - destruct (min =? 0)%nat; [|discriminate]. intros H. exists "", "". auto.
  - destruct (mem cs c).
    + destruct (rep_greedy cs (Nat.pred min) s g k) as [y|] eqn:E.
      * intros [= <-]. destruct (IH _ _ _ _ E) as (pre & s' & -> & Hk).
        exists (String c pre), s'. auto.
      * destruct (min =? 0)%nat; [|discriminate]. intros H.
        exists "", (String c s). auto.
    + destruct (min =? 0)%nat; [|discriminate]. intros H.
      exists "", (String c s). auto.
Qed.

Lemma rep_lazy_cps cs : ∀ s min g k x,
  rep_lazy cs min s g k = Some x →
  ∃ pre s', s = pre +:+ s' ∧ k s' g = Some x.
Proof.
  induction s as [|c s IH]; intros min g k x; simpl.
  - destruct (min =? 0)%nat; [|discriminate].
    destruct (k "" g) as [y|] eqn:E; [|discriminate].
    intros [= <-]. exists "", "". auto.
  - destruct (if (min =? 0)%nat then k (String c s) g else None) as [y|] eqn:E.
    + intros [= <-]. destruct (min =? 0)%nat; [|discriminate].
      exists "", (String c s). auto.
    + destruct (mem cs c); [|discriminate]. intros H.
      destruct (IH _ _ _ _ H) as (pre & s' & -> & Hk).
      exists (String c pre), s'. auto.
Qed.

Lemma run_Lit l s g (k : cont) x :
  run (Lit l) s g k = Some x → ∃ s', s = l +:+ s' ∧ k s' g = Some x.
Proof.
  cbn [run]. destruct (strip_prefix l s) as [s'|] eqn:E; [|discriminate].
  apply strip_prefix_app in E. eauto.
Qed.

(** A match of [insertion_point] is some text [a] (group 1) followed by
    the banner (group 2). *)
Lemma insertion_point_match s m n :
  match_at AddStructuredLogging.insertion_point s = Some (m, n) →
  ∃ a rest,
    s = a +:+ configuration_banner +:+ rest
    ∧ group m 1 = a ∧ group m 2 = configuration_banner
    ∧ n = String.length a + String.length configuration_banner.
Proof.
  unfold match_at, AddStructuredLogging.insertion_point.
  destruct (run _ s [] _) as [[rest g]|] eqn:H; [|discriminate].
  intros [= <- <-]. cbn [run] in H.
  destruct (strip_prefix "import" s) as [s0|] eqn:E0; [|discriminate].
  apply strip_prefix_app in E0.
  apply rep_lazy_cps in H as (p1 & t1 & E1 & H).
  destruct (strip_prefix ";" t1) as [t2|] eqn:E2; [|discriminate].
  apply strip_prefix_app in E2.
  apply rep_greedy_cps in H as (p2 & t3 & E3 & H).
  destruct (strip_prefix nl t3) as [s1|] eqn:E4; [|discriminate].
  apply strip_prefix_app in E4.
  destruct (strip_prefix nl s1) as [u1|] eqn:E5; [|discriminate].
  apply strip_prefix_app in E5.
  destruct (strip_prefix _ u1) as [u2|] eqn:E6; [|discriminate].
  apply strip_prefix_app in E6.
  destruct (strip_prefix nl u2) as [u3|] eqn:E7; [|discriminate].
  apply strip_prefix_app in E7.
  destruct (strip_prefix _ u3) as [s2|] eqn:E8; [|discriminate].
  apply strip_prefix_app in E8.
  injection H as <- <-.
  assert (Hs1 : s1 = configuration_banner +:+ s2).
  { unfold configuration_banner. rewrite !append_assoc. congruence. }
  set (a := "import" +:+ p1 +:+ ";" +:+ p2 +:+ nl).
  assert (Hs : s = a +:+ s1).
  { unfold a. rewrite !append_assoc. congruence. }
  exists a, s2. rewrite Hs.
  split; [rewrite Hs1; reflexivity|].
  split; [simpl; apply consumed_append|].
  split; [simpl; rewrite Hs1; apply consumed_append|].
  rewrite Hs1, !length_append. lia.
Qed.

Lemma drop_append (a b : string) : drop (String.length a) (a +:+ b) = b.
Proof. induction a as [|c a IH]; simpl; [destruct b; reflexivity | exact IH]. Qed.

Lemma subn_limit_reached r repl : ∀ s k,
  subn r repl (Some 0) s k = (drop k s, 0).
Proof.
  induction s as [|c s IH]; intros k; simpl.
  - destruct k; reflexivity.
  - destruct k as [|j]; [reflexivity | apply IH].
Qed.

(** [re.sub] with [count=1] either finds no match or replaces the
    leftmost one and copies the rest. *)
Lemma subn_once r repl : ∀ s,
  subn r repl (Some 1) s 0 = (s, 0)
  ∨ ∃ pre t m n,
      s = pre +:+ t ∧ match_at r t = Some (m, S n)
      ∧ subn r repl (Some 1) s 0 = (pre +:+ repl m +:+ drop (S n) t, 1).
Proof.
  induction s as [|c s IH]; [left; reflexivity|].
  cbn [subn].
  destruct (match_at r (String c s)) as [[m [|n]]|] eqn:E.
  - destruct IH as [->|(pre & t & m' & n' & -> & Hm & ->)]; [left; reflexivity|].
    right. exists (String c pre), t, m', n'. auto.
  - right. exists "", (String c s), m, n.
    cbn [option_map Nat.pred]. rewrite subn_limit_reached. auto.
  - destruct IH as [->|(pre & t & m' & n' & -> & Hm & ->)]; [left; reflexivity|].
    right. exists (String c pre), t, m', n'. auto.
Qed.

Lemma contains_append_r needle x y :
  contains needle y = true → contains needle (x +:+ y) = true.
Proof.
  intros H. induction x as [|c x IH]; [exact H|].
  rewrite append_cons. simpl.
  destruct (strip_prefix needle (String c (x +:+ y))); [reflexivity | exact IH].
Qed.

Lemma LOGGER_CODE_has_sentinel x :
  contains "// STRUCTURED LOGGER" (AddStructuredLogging.LOGGER_CODE +:+ x) = true.
Proof. vm_compute. reflexivity. Qed.

End MatchShape.

(** ** The logger-declaration injector *)

Section Injector.

Import Re AddStructuredLogging.

Lemma add_logger_cases content :
  (contains "// STRUCTURED LOGGER" content = true
   ∧ add_logger content = (content, [LoggerExists]))
  ∨ (contains "// STRUCTURED LOGGER" content = false
     ∧ add_logger content = (content, [NoInsertionPoint]))
  ∨ (contains "// STRUCTURED LOGGER" content = false
     ∧ ∃ before after,
         content = before +:+ configuration_banner +:+ after
         ∧ add_logger content
           = (before +:+ LOGGER_CODE +:+ configuration_banner +:+ after,
              [AddedLogger])).
Proof.
  unfold add_logger.
  destruct (contains "// STRUCTURED LOGGER" content) eqn:Hs; [left; auto|].
  right. unfold sub_count.
  destruct (subn_once insertion_point
              (fun m => group m 1 +:+ LOGGER_CODE +:+ group m 2) content)
    as [->|(pre & t & m & n & -> & Hm & ->)].
  - left. cbn [fst]. rewrite String.eqb_refl. auto.
  - cbn [fst].
    destruct (String.eqb _ (pre +:+ t)); [left; auto|].
    right. split; [reflexivity|].
    apply insertion_point_match in Hm as (a & rest & -> & -> & -> & Hn).
    assert (Hd : drop (S n) (a +:+ configuration_banner +:+ rest) = rest).
    { rewrite Hn, <- length_append, <- (append_assoc a). apply drop_append. }
    rewrite Hd. exists (pre +:+ a), rest. rewrite !append_assoc. auto.
Qed.

(** X10.  [add_logger] does one of three things: with the sentinel in the
    document it returns the document; without it and without an
    insertion point it returns the document with the warning; otherwise
    the document is some text followed by the configuration banner, and
    the result is the same text with [LOGGER_CODE] put in before the
    banner, everything else as it was. *)
Theorem add_logger_inserts_before_banner content :
  (contains "// STRUCTURED LOGGER" content = true
   ∧ add_logger content = (content, [LoggerExists]))
  ∨ (contains "// STRUCTURED LOGGER" content = false
     ∧ add_logger content = (content, [NoInsertionPoint]))
  ∨ (contains "// STRUCTURED LOGGER" content = false
     ∧ ∃ before after,
         content = before +:+ configuration_banner +:+ after
         ∧ add_logger content
           = (before +:+ LOGGER_CODE +:+ configuration_banner +:+ after,
              [AddedLogger])).
Proof. apply add_logger_cases. Qed.

(** X11.  [add_logger] never inserts twice: applied to its own result it
    returns that result and does not report an insertion. *)
Theorem add_logger_inserts_once content :
  fst (add_logger (fst (add_logger content))) = fst (add_logger content)
  ∧ snd (add_logger (fst (add_logger content))) ≠ [AddedLogger].
Proof.
  destruct (add_logger_cases content)
    as [[_ E]|[[_ E]|(Hs & before & after & Hc & E)]].
  - rewrite E. cbn [fst]. rewrite E. split; [reflexivity | discriminate].
  - rewrite E. cbn [fst]. rewrite E. split; [reflexivity | discriminate].
  - rewrite E. cbn [fst]. unfold add_logger.
    rewrite contains_append_r by apply LOGGER_CODE_has_sentinel.
    split; [reflexivity | discriminate].
Qed.

End Injector.

(** ** Rewriting one legacy call *)

Section OneCall.

Import Re.

Lemma contains_true_inv needle s :
  contains needle s = true → ∃ pre post, s = pre +:+ needle +:+ post.
Proof.
  induction s as [|c s IH]; simpl.
  - destruct (strip_prefix needle "") as [r|] eqn:E; [|discriminate].
    apply strip_prefix_app in E. intros _. exists "", r. exact E.
  - destruct (strip_prefix needle (String c s)) as [r|] eqn:E.
    + apply strip_prefix_app in E. intros _. exists "", r. exact E.
    + intros H. destruct (IH H) as (pre & post & ->).
      exists (String c pre), post. reflexivity.
Qed.

Lemma contains_self needle post : contains needle (needle +:+ post) = true.
Proof.
  destruct (needle +:+ post) eqn:E; simpl; rewrite <- E, strip_prefix_self;
    reflexivity.
Qed.

Lemma contains_inside h needle s :
  contains needle s = false → contains (h +:+ needle) s = false.
Proof.
  intros H. destruct (contains (h +:+ needle) s) eqn:E; [|reflexivity].
  apply contains_true_inv in E as (pre & post & ->).
  rewrite append_assoc, <- (append_assoc pre h) in H.
  rewrite contains_append_r in H; [discriminate | apply contains_self].
Qed.

Lemma contains_char_cons c d s :
  contains (String c "") (String d s)
  = Ascii.eqb c d || contains (String c "") s.
Proof. simpl. destruct (Ascii.eqb c d); reflexivity. Qed.

Lemma contains_char_append c a b :
  contains (String c "") (a +:+ b)
  = contains (String c "") a || contains (String c "") b.
Proof.
  induction a as [|d a IH].
  - rewrite append_nil_l. simpl. reflexivity.
  - rewrite append_cons, !contains_char_cons, IH. apply orb_assoc.
Qed.

Lemma span_not_absent c s :
  contains (String c "") s = false → span_not c s = (s, "").
Proof.
  induction s as [|d s IH]; [reflexivity|].
  rewrite contains_char_cons. intros H. apply orb_false_iff in H as [H1 H2].
  simpl. rewrite Ascii.eqb_sym, H1, (IH H2). reflexivity.
Qed.

Lemma contains_cons_miss c n d s :
  Ascii.eqb c d = false →
  contains (String c n) (String d s) = contains (String c n) s.
Proof. intros H. simpl. rewrite H. reflexivity. Qed.

(** An occurrence of a needle cannot start in a part that does not hold
    the needle's first character. *)
Lemma contains_skip c n a b :
  contains (String c "") a = false →
  contains (String c n) (a +:+ b) = contains (String c n) b.
Proof.
  induction a as [|d a IH]; [reflexivity|].
  rewrite contains_char_cons. intros H. apply orb_false_iff in H as [H1 H2].
  rewrite append_cons, (contains_cons_miss _ _ _ _ H1). apply IH, H2.
Qed.

Lemma contains_char_absent c n s :
  contains (String c "") s = false → contains (String c n) s = false.
Proof. apply (contains_append_false (String c "") n s). Qed.

(** A text without the two characters [`[] holds no opening of a legacy
    call. *)
Lemma opener_absent call p s :
  contains "`[" s = false → contains (legacy_opener call p) s = false.
Proof.
  intros H. unfold legacy_opener.
  replace ("console." +:+ call +:+ "(`[" +:+ p +:+ "] ")
    with ((("console." +:+ call +:+ "(") +:+ "`[") +:+ p +:+ "] ")
    by (rewrite !append_assoc; reflexivity).
  apply contains_append_false, contains_inside, H.
Qed.

(** A match of the whole text: one substitution, nothing else. *)
Lemma subn_whole r repl s m :
  s ≠ "" → match_at r s = Some (m, String.length s) →
  subn r repl None s 0 = (repl m, 1).
Proof.
  destruct s as [|c s]; [contradiction|]. intros _ H.
  cbn [subn]. cbn [String.length] in H. rewrite H. cbn [option_map].
  assert (G : ∀ t, subn r repl None t (String.length t) = ("", 0)).
  { induction t as [|d t IH]; [reflexivity | exact IH]. }
  rewrite G, append_nil_r. reflexivity.
Qed.

Lemma subn_miss r repl c s :
  strip_prefix (literal_prefix r) (String c s) = None →
  subn r repl None (String c s) 0
  = (String c (fst (subn r repl None s 0)), snd (subn r repl None s 0)).
Proof.
  intros H. cbn [subn].
  destruct (match_at r (String c s)) as [m|] eqn:E.
  - apply match_at_literal_prefix in E as [rest E]. rewrite E in H.
    rewrite strip_prefix_self in H. discriminate.
  - destruct (subn r repl None s 0). reflexivity.
Qed.

Lemma subn_no_match r repl c s :
  match_at r (String c s) = None →
  subn r repl None (String c s) 0
  = (String c (fst (subn r repl None s 0)), snd (subn r repl None s 0)).
Proof.
  intros H. cbn [subn]. rewrite H.
  destruct (subn r repl None s 0). reflexivity.
Qed.

(** The message-only pattern on a text that is one such call. *)
Lemma message_only_match call p msg :
  msg ≠ "" → contains "`" msg = false →
  ∃ m,
    match_at (AddStructuredLogging.message_only call p)
      (("console." +:+ call +:+ "(`[") +:+ p +:+ "] " +:+ msg +:+ "`);")
    = Some (m, String.length
                 (("console." +:+ call +:+ "(`[") +:+ p +:+ "] " +:+ msg +:+ "`);"))
    ∧ group m 1 = msg.
Proof.
  intros Hne Hclean. unfold match_at, AddStructuredLogging.message_only.
  cbn [run]. rewrite !strip_prefix_self.
  rewrite rep_greedy_except.
  2:{ intros d s' g' Hd. cbn beta.
      rewrite strip_prefix_cons_ne by exact Hd. reflexivity. }
  rewrite span_not_app by (apply span_not_absent, Hclean).
  simpl span_not. cbv beta iota. rewrite append_nil_r.
  destruct msg as [|c msg]; [contradiction|].
  cbn [String.length Nat.leb]. simpl strip_prefix.
  eexists. split; [rewrite Nat.sub_0_r; reflexivity|].
  cbn [group Nat.eqb]. apply (consumed_append (String c msg) "`);").
Qed.

(** The message-only pattern does not match a call that goes on after
    its message with something else than the closing [);]. *)
Lemma message_only_mismatch call p msg tail :
  contains "`" msg = false → strip_prefix ");" tail = None →
  match_at (AddStructuredLogging.message_only call p)
    (("console." +:+ call +:+ "(`[") +:+ p +:+ "] " +:+ msg +:+ String "`" tail)
  = None.
Proof.
  intros Hclean Htail. unfold match_at, AddStructuredLogging.message_only.
  cbn [run]. rewrite !strip_prefix_self.
  rewrite rep_greedy_except.
  2:{ intros d s' g' Hd. cbn beta.
      rewrite strip_prefix_cons_ne by exact Hd. reflexivity. }
  rewrite span_not_app by (apply span_not_absent, Hclean).
  simpl span_not. cbv beta iota.
  destruct (1 <=? _)%nat; [|reflexivity].
  change (strip_prefix "`);" (String "`" tail)) with (strip_prefix ");" tail).
  rewrite Htail. reflexivity.
Qed.

(** The error pattern on a text that is one such call. *)
Lemma message_error_match p msg :
  msg ≠ "" → contains "`" msg = false →
  ∃ m,
    match_at (AddStructuredLogging.message_error p)
      ("console.error(`[" +:+ p +:+ "] " +:+ msg +:+ "`, error);")
    = Some (m, String.length
                 ("console.error(`[" +:+ p +:+ "] " +:+ msg +:+ "`, error);"))
    ∧ group m 1 = msg.
Proof.
  intros Hne Hclean. unfold match_at, AddStructuredLogging.message_error.
  cbn [run]. rewrite !strip_prefix_self.
  rewrite rep_greedy_except.
  2:{ intros d s' g' Hd. cbn beta.
      rewrite strip_prefix_cons_ne by exact Hd. reflexivity. }
  rewrite span_not_app by (apply span_not_absent, Hclean).
  simpl span_not. cbv beta iota. rewrite append_nil_r.
  destruct msg as [|c msg]; [contradiction|].
  cbn [String.length Nat.leb].
  change (strip_prefix "`," "`, error);") with (Some " error);").
  cbv beta iota.
  change (rep_greedy Space 0 " error);" ?g ?k) with (k "error);" g).
  cbv beta. simpl strip_prefix. cbv beta iota.
  eexists. split; [rewrite Nat.sub_0_r; reflexivity|].
  cbn [group Nat.eqb]. apply (consumed_append (String c msg) "`, error);").
Qed.

(** The message-plus-data pattern on a text that is one such call, the
    expression starting with a character that is not white space and
    holding no closing parenthesis. *)
Lemma message_data_match p msg c e :
  msg ≠ "" → contains "`" msg = false →
  is_space c = false → contains ")" (String c e) = false →
  ∃ m,
    match_at (AddStructuredLogging.message_data p)
      ("console.log(`[" +:+ p +:+ "] " +:+ msg +:+ "`, " +:+ String c e +:+ ");")
    = Some (m, String.length
                 ("console.log(`[" +:+ p +:+ "] " +:+ msg +:+ "`, "
                  +:+ String c e +:+ ");"))
    ∧ group m 1 = msg ∧ group m 2 = String c e.
Proof.
  intros Hne Hclean Hspace Hparen.
  unfold match_at, AddStructuredLogging.message_data.
  cbn [run]. rewrite !strip_prefix_self.
  rewrite rep_greedy_except.
  2:{ intros d s' g' Hd. cbn beta.
      rewrite strip_prefix_cons_ne by exact Hd. reflexivity. }
  rewrite span_not_app by (apply span_not_absent, Hclean).
  simpl span_not. cbv beta iota. rewrite append_nil_r.
  destruct msg as [|c0 msg]; [contradiction|].
  cbn [String.length Nat.leb].
  change (strip_prefix "`," (String "`" (", " +:+ String c e +:+ ");")))
    with (Some (String " " (String c (e +:+ ");")))).
  cbv beta iota. cbn [rep_greedy Nat.pred Nat.eqb mem]. rewrite Hspace.
  change (is_space " ") with true. cbv beta iota.
  rewrite rep_greedy_except.
  2:{ intros d s' g' Hd. cbn beta.
      rewrite strip_prefix_cons_ne by exact Hd. reflexivity. }
  rewrite contains_char_cons in Hparen.
  apply orb_false_iff in Hparen as [Hc He].
  rewrite (Ascii.eqb_sym c ")"), Hc. cbn [negb].
  rewrite (span_not_app ")" e ");") by (apply span_not_absent, He).
  simpl span_not. cbv beta iota. rewrite append_nil_r.
  cbn [Nat.leb]. simpl strip_prefix. cbv beta iota.
  eexists. split; [rewrite Nat.sub_0_r; reflexivity|].
  cbn [group Nat.eqb]. split.
  - apply (consumed_append (String c0 msg)).
  - apply (consumed_append (String c e) ");").
Qed.

Import AddStructuredLogging.

Lemma letters_only_backtick p :
  letters_only p = true → contains "`" p = false.
Proof.
  induction p as [|c p IH]; [reflexivity|]. simpl letters_only.
  intros H. apply andb_true_iff in H as [Hc Hp].
  rewrite contains_char_cons, (IH Hp), orb_false_r.
  destruct (Ascii.eqb_spec "`" c) as [<-|]; [discriminate Hc | reflexivity].
Qed.

(** X12.  A legacy call whose only argument is the prefix-tagged message,
    with a prefix made of letters and a non-empty message without
    backtick, is turned by its own pass into the structured call of the
    same severity with an empty data object and the same message, as one
    substitution. *)
Theorem message_only_call_is_rewritten p msg :
  msg ≠ "" → letters_only p = true → contains "`" msg = false →
  replace_console_log_count
    ("console.log(`[" +:+ p +:+ "] " +:+ msg +:+ "`);") p
  = ("logger.info({}, '[" +:+ p +:+ "] " +:+ msg +:+ "');", 1)
  ∧ replace_console_error_count
      ("console.error(`[" +:+ p +:+ "] " +:+ msg +:+ "`);") p
    = ("logger.error({}, '[" +:+ p +:+ "] " +:+ msg +:+ "');", 1)
  ∧ replace_console_warn_count
      ("console.warn(`[" +:+ p +:+ "] " +:+ msg +:+ "`);") p
    = ("logger.warn({}, '[" +:+ p +:+ "] " +:+ msg +:+ "');", 1).
Proof.
  intros Hne Hp Hm. apply letters_only_backtick in Hp.
  assert (Hclean : ∀ sev,
            contains "`" sev = false →
            contains "`[" (("logger." +:+ sev +:+ "({}, '[") +:+ p +:+ "] "
                           +:+ msg +:+ "');") = false).
  { intros sev Hsev. apply contains_char_absent.
    rewrite !contains_char_append, Hp, Hm, Hsev. reflexivity. }
  split; [|split].
  - unfold replace_console_log_count.
    destruct (message_only_match "log" p msg Hne Hm) as (m & Hmatch & Hg).
    erewrite subn_whole; [|discriminate|exact Hmatch]. rewrite Hg.
    rewrite subn_absent; [reflexivity|].
    rewrite message_data_prefix. apply opener_absent, (Hclean "info").
    reflexivity.
  - unfold replace_console_error_count.
    destruct (message_only_match "error" p msg Hne Hm) as (m & Hmatch & Hg).
    erewrite subn_whole; [|discriminate|exact Hmatch]. rewrite Hg.
    rewrite subn_absent; [reflexivity|].
    rewrite message_error_prefix. apply opener_absent, (Hclean "error").
    reflexivity.
  - unfold replace_console_warn_count.
    destruct (message_only_match "warn" p msg Hne Hm) as (m & Hmatch & Hg).
    erewrite subn_whole; [|discriminate|exact Hmatch]. rewrite Hg.
    reflexivity.
Qed.

Lemma message_only_call_witness :
  replace_console_log_count "console.log(`[Agent] Starting`);" "Agent"
  = ("logger.info({}, '[Agent] Starting');", 1)
  ∧ replace_console_error_count "console.error(`[Agent] Starting`);" "Agent"
    = ("logger.error({}, '[Agent] Starting');", 1)
  ∧ replace_console_warn_count "console.warn(`[Agent] Starting`);" "Agent"
    = ("logger.warn({}, '[Agent] Starting');", 1).
Proof.
  apply (message_only_call_is_rewritten "Agent" "Starting");
    [discriminate | reflexivity | reflexivity].
Defined.

(** After its first character, a text that is one legacy call holds no
    further opening of a legacy call when its prefix and what follows
    hold no [`[]. *)
Lemma opener_absent_in_call call p rest :
  contains "c" call = false →
  contains "`[" (p +:+ rest) = false →
  contains (legacy_opener call p)
    ("onsole." +:+ call +:+ "(`[" +:+ p +:+ rest) = false.
Proof.
  intros Hcall H.
  replace ("onsole." +:+ call +:+ "(`[" +:+ p +:+ rest)
    with (("onsole." +:+ call +:+ "(`[") +:+ p +:+ rest)
    by (rewrite !append_assoc; reflexivity).
  change (legacy_opener call p)
    with (String "c" ("onsole." +:+ call +:+ "(`[" +:+ p +:+ "] ")).
  rewrite contains_skip.
  - apply (opener_absent call p), H.
  - rewrite !contains_char_append, Hcall. reflexivity.
Qed.

(** X13.  A legacy error call whose second argument is [error], with a
    prefix made of letters and a non-empty message without backtick, is
    turned into the structured error call whose data object extracts the
    error's message and whose message is the old one without its
    trailing colons, as one substitution. *)
Theorem error_call_is_rewritten p msg :
  msg ≠ "" → letters_only p = true → contains "`" msg = false →
  replace_console_error_count
    ("console.error(`[" +:+ p +:+ "] " +:+ msg +:+ "`, error);") p
  = ("logger.error({ error: error instanceof Error ? error.message : String(error) }, '["
       +:+ p +:+ "] " +:+ rstrip_by (Ascii.eqb ":") msg +:+ "');", 1).
Proof.
  intros Hne Hp Hm. apply letters_only_backtick in Hp.
  unfold replace_console_error_count.
  change ("console.error(`[" +:+ p +:+ "] " +:+ msg +:+ "`, error);")
    with (String "c" ("onsole." +:+ "error" +:+ "(`[" +:+ p +:+ "] " +:+ msg
                      +:+ "`, error);")) at 1.
  rewrite subn_no_match
    by (apply (message_only_mismatch "error" p msg ", error);" Hm); reflexivity).
  rewrite (subn_absent (message_only "error" p)).
  2:{ rewrite message_only_prefix. apply opener_absent_in_call; [reflexivity|].
      rewrite (contains_skip "`" "[" p) by exact Hp.
      rewrite (contains_skip "`" "[" "] ") by reflexivity.
      rewrite (contains_skip "`" "[" msg) by exact Hm. reflexivity. }
  cbn [fst snd].
  destruct (message_error_match p msg Hne Hm) as (m & Hmatch & Hg).
  erewrite subn_whole; [|discriminate|exact Hmatch]. rewrite Hg. reflexivity.
Qed.

Lemma error_call_witness :
  replace_console_error_count "console.error(`[Agent] Failed::`, error);" "Agent"
  = ("logger.error({ error: error instanceof Error ? error.message : String(error) }, '[Agent] Failed');", 1).
Proof.
  apply (error_call_is_rewritten "Agent" "Failed::");
    [discriminate | reflexivity | reflexivity].
Defined.

Lemma lstrip_by_length f s :
  (String.length (lstrip_by f s) <= String.length s)%nat.
Proof.
  induction s as [|c s IH]; simpl; [lia|].
  destruct (f c); simpl; lia.
Qed.

Lemma lstrip_by_fixed f s :
  s ≠ "" → lstrip_by f s = s → ∃ c e, s = String c e ∧ f c = false.
Proof.
  destruct s as [|c e]; [contradiction|]. intros _ H. simpl in H.
  destruct (f c) eqn:E; [|eauto].
  pose proof (lstrip_by_length f e) as L. rewrite H in L. simpl in L. lia.
Qed.

Lemma contains_opening_backtick d s :
  Ascii.eqb "[" d = false →
  contains "`[" (String "`" (String d s)) = contains "`[" (String d s).
Proof.
  intros H. cbn [contains strip_prefix]. rewrite H. reflexivity.
Qed.

(** X14.  A legacy [console.log] call with the prefix-tagged message and one
    more argument is turned into the structured info call whose data
    object wraps the argument with its trailing white space removed
    (under the key [data] when its text holds [JSON.stringify]) and whose
    message is as it was, as one substitution.  The prefix is made of
    letters, the message and the argument hold no backtick, the message
    is not empty, and the argument is an ASCII text that is not empty,
    starts with no white space and holds no closing parenthesis. *)
Theorem data_call_is_rewritten p msg expr :
  msg ≠ "" → letters_only p = true → contains "`" msg = false →
  expr ≠ "" → ascii_only expr = true → lstrip_by is_space expr = expr →
  contains "`" expr = false → contains ")" expr = false →
  replace_console_log_count
    ("console.log(`[" +:+ p +:+ "] " +:+ msg +:+ "`, " +:+ expr +:+ ");") p
  = (if contains "JSON.stringify" (strip expr)
     then "logger.info({ data: " +:+ strip expr +:+ " }, '[" +:+ p +:+ "] "
          +:+ msg +:+ "');"
     else "logger.info({ " +:+ strip expr +:+ " }, '[" +:+ p +:+ "] "
          +:+ msg +:+ "');",
     1).
Proof.
  intros Hne Hp Hm Hexpr _ Hlead He Hparen. apply letters_only_backtick in Hp.
  destruct (lstrip_by_fixed _ _ Hexpr Hlead) as (c & e & -> & Hspace).
  unfold replace_console_log_count.
  change ("console.log(`[" +:+ p +:+ "] " +:+ msg +:+ "`, " +:+ String c e +:+ ");")
    with (String "c" ("onsole." +:+ "log" +:+ "(`[" +:+ p +:+ "] " +:+ msg
                      +:+ "`, " +:+ String c e +:+ ");")) at 1.
  rewrite subn_no_match
    by (apply (message_only_mismatch "log" p msg (", " +:+ String c e +:+ ");") Hm);
        reflexivity).
  rewrite (subn_absent (message_only "log" p)).
  2:{ rewrite message_only_prefix. apply opener_absent_in_call; [reflexivity|].
      rewrite (contains_skip "`" "[" p) by exact Hp.
      rewrite (contains_skip "`" "[" "] ") by reflexivity.
      rewrite (contains_skip "`" "[" msg) by exact Hm.
      change ("`, " +:+ String c e +:+ ");")
        with (String "`" (String "," (" " +:+ String c e +:+ ");"))).
      rewrite contains_opening_backtick by reflexivity.
      change (String "," (" " +:+ String c e +:+ ");"))
        with (", " +:+ String c e +:+ ");").
      rewrite (contains_skip "`" "[" ", ") by reflexivity.
      rewrite (contains_skip "`" "[" (String c e)) by exact He. reflexivity. }
  cbn [fst snd].
  destruct (message_data_match p msg c e Hne Hm Hspace Hparen)
    as (m & Hmatch & Hg1 & Hg2).
  erewrite subn_whole; [|discriminate|exact Hmatch]. rewrite Hg1, Hg2.
  reflexivity.
Qed.

Lemma data_call_witness :
  replace_console_log_count "console.log(`[Agent] Loaded`, result );" "Agent"
  = ("logger.info({ result }, '[Agent] Loaded');", 1).
Proof.
  apply (data_call_is_rewritten "Agent" "Loaded" "result ");
    solve [discriminate | reflexivity].
Defined.

End OneCall.

(** ** Replacing a declaration *)

Section Replacing.

Import Re FixLoggerDefinitionsFinal.

Lemma strip_prefix_split p : ∀ t x r,
  strip_prefix p (t +:+ x) = Some r →
  (∃ r', strip_prefix p t = Some r')
  ∨ (∃ u, p = t +:+ u ∧ u ≠ "" ∧ strip_prefix u x = Some r).
Proof.
  induction p as [|a p IH]; intros t x r H.
  - left. exists t. reflexivity.
  - destruct t as [|b t].
    + right. exists (String a p). auto.
    + rewrite append_cons in H. simpl in H. simpl.
      destruct (Ascii.eqb_spec a b) as [->|]; [|discriminate].
      destruct (IH _ _ _ H) as [?|(u & -> & Hne & Hu)]; [left; assumption|].
      right. exists u. auto.
Qed.

(** The opening text of a declaration does not overlap itself: in a
    non-empty text followed by the opening text, it can only start inside
    the first text if it lies there whole. *)
Lemma opening_no_overlap t z r :
  t ≠ "" →
  strip_prefix "const logger = {" (t +:+ "const logger = {" +:+ z) = Some r →
  ∃ r', strip_prefix "const logger = {" t = Some r'.
Proof.
  intros Ht H. apply strip_prefix_split in H as [H|(u & E & Hne & Hu)]; [exact H|].
  exfalso. destruct t as [|c1 t]; [contradiction|].
  rewrite append_cons in E. injection E as _ E.
  assert (Hc : contains "c" (t +:+ u) = false) by (rewrite <- E; reflexivity).
  rewrite contains_char_append in Hc. apply orb_false_iff in Hc as [_ Hc].
  destruct u as [|d u]; [contradiction|].
  rewrite contains_char_cons in Hc. apply orb_false_iff in Hc as [Hd _].
  change ("const logger = {" +:+ z) with (String "c" ("onst logger = {" +:+ z)) in Hu.
  cbn [strip_prefix] in Hu. rewrite Ascii.eqb_sym, Hd in Hu. discriminate.
Qed.

Lemma sub_text_skip_append r repl a : ∀ rest,
  sub_text r repl (a +:+ rest) (String.length a) = sub_text r repl rest 0.
Proof. induction a as [|c a IH]; intros rest; [reflexivity | apply IH]. Qed.

Lemma sub_text_hit r repl s rest m :
  s ≠ "" → match_at r (s +:+ rest) = Some (m, String.length s) →
  sub_text r repl (s +:+ rest) 0 = repl m +:+ sub_text r repl rest 0.
Proof.
  destruct s as [|c s]; [contradiction|]. intros _ H.
  rewrite append_cons in *. cbn [sub_text]. cbn [String.length] in H.
  rewrite H, sub_text_skip_append. reflexivity.
Qed.

Lemma sub_text_miss r repl c s :
  match_at r (String c s) = None →
  sub_text r repl (String c s) 0 = String c (sub_text r repl s 0).
Proof. intros H. cbn [sub_text]. rewrite H. reflexivity. Qed.

(** The pattern on a text that starts with a declaration whose body holds
    no closing brace. *)
Lemma declaration_match body rest :
  body ≠ "" → contains "}" body = false →
  ∃ m,
    match_at pattern (("const logger = {" +:+ body +:+ "};") +:+ rest)
    = Some (m, String.length ("const logger = {" +:+ body +:+ "};")).
Proof.
  intros Hne Hclean. unfold match_at, pattern. cbn [run].
  rewrite !append_assoc, strip_prefix_self.
  rewrite rep_greedy_except.
  2:{ intros d s' g' Hd. cbn [run].
      rewrite strip_prefix_cons_ne by exact Hd. reflexivity. }
  rewrite span_not_app by (apply span_not_absent, Hclean).
  change ("};" +:+ rest) with (String "}" (String ";" rest)).
  simpl span_not. cbv beta iota. rewrite append_nil_r.
  destruct body as [|c body]; [contradiction|].
  cbn [String.length Nat.leb run]. simpl strip_prefix. cbv beta iota.
  eexists. f_equal. f_equal.
  rewrite !length_append. cbn [String.length]. lia.
Qed.

(** X15.  After a text in which [const logger = {] does not occur, a
    declaration whose body is not empty and holds no closing brace is
    replaced by [CORRECT_LOGGER]; the text before it is kept and the text
    after it is processed on its own. *)
Theorem declaration_is_replaced before body rest :
  contains "const logger = {" before = false →
  body ≠ "" → contains "}" body = false →
  fix_logger_definition
    (before +:+ ("const logger = {" +:+ body +:+ "};") +:+ rest)
  = before +:+ CORRECT_LOGGER +:+ fix_logger_definition rest.
Proof.
  intros Hbefore Hne Hclean. unfold fix_logger_definition.
  rewrite !sub_sub_text.
  induction before as [|c before IH].
  - rewrite !append_nil_l.
    destruct (declaration_match body rest Hne Hclean) as [m Hm].
    rewrite (sub_text_hit _ _ _ _ m); [reflexivity | | exact Hm].
    discriminate.
  - apply contains_false_inv in Hbefore as [Hhere Hlater].
    specialize (Hlater c before eq_refl).
    rewrite !(append_cons c before), sub_text_miss, (IH Hlater); [reflexivity|].
    destruct (match_at pattern _) as [m|] eqn:E; [|reflexivity].
    apply match_at_literal_prefix in E as [r E].
    assert (Hs : strip_prefix "const logger = {"
                   (String c before +:+ "const logger = {" +:+ (body +:+ "};") +:+ rest)
                 = Some r).
    { apply strip_prefix_app.
      transitivity (String c (before +:+ ("const logger = {" +:+ body +:+ "};")
                              +:+ rest));
        [rewrite append_cons, !append_assoc; reflexivity | exact E]. }
    apply opening_no_overlap in Hs as [r' Hs]; [|discriminate].
    rewrite Hs in Hhere. discriminate.
Qed.

Lemma declaration_is_replaced_witness :
  fix_logger_definition
    ("// x" +:+ ("const logger = {" +:+ " info: f " +:+ "};") +:+ " done")
  = "// x" +:+ CORRECT_LOGGER +:+ fix_logger_definition " done".
Proof.
  apply declaration_is_replaced; [reflexivity | discriminate | reflexivity].
Defined.

End Replacing.
